(** * UltraSinger web frontend: notifications, job queue and progress card

    A shallow embedding of the client-side job tracking code:
    - [utils/notifications.js] (the module-level permission flag),
    - the job queue component ([refreshJobs], [handleCancel],
      [handleRetry], [handleDelete]),
    - [components/ProgressCard.vue] (the computed display values and the
      [v-if] conditions of its template).

    JavaScript values that may be missing are kept three-valued
    ([Undefined], [Null] or a value), numbers are rationals, and the
    asynchronous handlers are written in a small state-and-exception monad
    over the component state and a log of the effects they perform. Each
    handler is followed from its call to its completion; what other tasks
    do to the refs while it awaits is not part of its own behaviour. *)

From Stdlib Require Import ZArith QArith Qround.
From stdpp Require Import base strings list gmap pretty.
Close Scope Q_scope.
Local Open Scope Z_scope.

(** ** JavaScript values *)

Module JS.

(** A property read: absent ([undefined]), [null], or a value. *)
Inductive field (A : Type) : Type :=
| Undefined
| Null
| Val (a : A).
Global Arguments Undefined {A}.
Global Arguments Null {A}.
Global Arguments Val {A} a.

(** Truthiness of the primitive values the components test. *)
Class Truthy (A : Type) := truthy : A → bool.

Global Instance string_truthy : Truthy string :=
  λ s, negb (String.eqb s "").
Global Instance number_truthy : Truthy Q :=
  λ q, negb (Qeq_bool q 0).
Global Instance field_truthy {A} `{Truthy A} : Truthy (field A) :=
  λ v, match v with Val a => truthy a | _ => false end.

(** [a || b] *)
Definition or_else {A} `{Truthy A} (a b : field A) : field A :=
  if truthy a then a else b.

(** [o?.f] *)
Definition chain {A B} (o : field A) (f : A → field B) : field B :=
  match o with Val a => f a | _ => Undefined end.

(** [v !== undefined] *)
Definition defined {A} (v : field A) : bool :=
  match v with Undefined => false | _ => true end.

(** [Math.round] on a rational: the nearest integer, halves upwards. *)
Definition Math_round (q : Q) : Z := Qfloor (q + (1 # 2))%Q.

(** [Math.round(v)] for a [v] that may be [null] ([ToNumber(null)] is 0).
    The components only reach it behind a [!== undefined] test; the
    [Undefined] case (NaN in JavaScript) has no integer value. *)
Definition round_field (v : field Q) : option Z :=
  match v with
  | Undefined => None
  | Null => Some 0
  | Val q => Some (Math_round q)
  end.

(** String concatenation operand: ['...' + v]. *)
Definition to_string (v : field string) : string :=
  match v with
  | Undefined => "undefined"
  | Null => "null"
  | Val s => s
  end.

(** Errors that are thrown in the modelled code. *)
Inductive JsError :=
| AxiosError (detail message : field string)
| ReferenceError (name : string).

(** How a function call completes. *)
Inductive Completion (A : Type) : Type :=
| Normal (a : A)
| Throw (e : JsError).
Global Arguments Normal {A} a.
Global Arguments Throw {A} e.

End JS.

(** ** utils/notifications.js *)

Module Notifications.
Import JS.

Inductive OptionValue :=
| OStr (s : string)
| OBool (b : bool).

Record Notification := {
  n_title : string;
  n_options : gmap string OptionValue;
}.

(** What a call finds in the browser: whether ['Notification' in window]
    holds, and the current [Notification.permission]. *)
Record Browser := {
  has_Notification : bool;
  permission : string;
}.

(** [let permissionGranted = false] *)
Definition permissionGranted_init : bool := false.

(** [requestNotificationPermission]; [answer] is what
    [Notification.requestPermission()] resolves to when it is asked.
    Returns the value returned and the new flag. The flag is written
    only after the [await], in the same step as the return; the
    [console.warn] of the first branch reaches the console only. *)
Definition requestNotificationPermission
    (w : Browser) (answer : string) (permissionGranted : bool) : bool * bool :=
  if negb (has_Notification w) then (false, permissionGranted)
  else if String.eqb (permission w) "granted" then (true, true)
  else if negb (String.eqb (permission w) "denied") then
    let granted := String.eqb answer "granted" in (granted, granted)
  else (false, permissionGranted).

(** [{ icon: '/icon.png', badge: '/icon.png', ...options }] *)
Definition notification_options (options : gmap string OptionValue)
    : gmap string OptionValue :=
  options ∪ {[ "icon" := OStr "/icon.png" ]} ∪ {[ "badge" := OStr "/icon.png" ]}.

(** [showNotification]. With the flag unset the [||] short-circuits and
    [Notification] is not read at all; with the flag set and no
    [Notification] global the read raises. The constructor, once
    reached, is taken to return the notification: a browser in which
    [new Notification] itself throws is not described here. *)
Definition showNotification (w : Browser) (permissionGranted : bool)
    (title : string) (options : gmap string OptionValue)
    : Completion (field Notification) :=
  if negb permissionGranted then Normal Null
  else if negb (has_Notification w) then Throw (ReferenceError "Notification")
  else if negb (String.eqb (permission w) "granted") then Normal Null
  else Normal (Val {| n_title := title;
                      n_options := notification_options options |}).

Definition notifyJobComplete (w : Browser) (permissionGranted : bool)
    (jobTitle : string) (isSuccess : bool) : Completion (field Notification) :=
  let title := if isSuccess then "✅ Job Completed!" else "❌ Job Failed" in
  let body :=
    if isSuccess then jobTitle +:+ " has been processed successfully"
    else jobTitle +:+ " processing failed" in
  showNotification w permissionGranted title
    ({[ "body" := OStr body ]} ∪ {[ "tag" := OStr "job-complete" ]}
      ∪ {[ "requireInteraction" := OBool false ]}).

(** A use of the module: a sequence of calls to its exports, each
    paired with the browser state it meets. *)
Inductive Call :=
| RequestPermission (answer : string)
| ShowNotification (title : string) (options : gmap string OptionValue)
| NotifyJobComplete (jobTitle : string) (isSuccess : bool).

Inductive Result :=
| Answered (granted : bool)
| Shown (c : Completion (field Notification)).

Definition is_request (c : Call) : bool :=
  match c with RequestPermission _ => true | _ => false end.

Definition step (permissionGranted : bool) (wc : Browser * Call)
    : Result * bool :=
  match wc.2 with
  | RequestPermission answer =>
      let r := requestNotificationPermission wc.1 answer permissionGranted in
      (Answered r.1, r.2)
  | ShowNotification title options =>
      (Shown (showNotification wc.1 permissionGranted title options),
       permissionGranted)
  | NotifyJobComplete jobTitle isSuccess =>
      (Shown (notifyJobComplete wc.1 permissionGranted jobTitle isSuccess),
       permissionGranted)
  end.

Fixpoint run (permissionGranted : bool) (calls : list (Browser * Call))
    : list Result * bool :=
  match calls with
  | [] => ([], permissionGranted)
  | wc :: rest =>
      let s := step permissionGranted wc in
      let r := run s.2 rest in
      (s.1 :: r.1, r.2)
  end.

(** The results and the final flag of a whole session of the module. *)
Definition results (calls : list (Browser * Call)) : list Result :=
  (run permissionGranted_init calls).1.
Definition flag_after (calls : list (Browser * Call)) : bool :=
  (run permissionGranted_init calls).2.

End Notifications.

(** ** Job records, as the remote system returns them *)

Module Job.
Import JS.

(** The progress object of a job snapshot, and equally the payload of a
    push event: every property may be missing. The stage key is read
    from the property [step]. *)
Record Progress := {
  message : field string;
  percentage : field Q;
  step : field string;
  elapsed_seconds : field Q;
}.

(** A job snapshot; [job_elapsed_seconds] is the job's own
    [elapsed_seconds], next to the one inside [progress]. *)
Record t := {
  job_id : string;
  status : string;
  queue_position : field Z;
  progress : field Progress;
  job_elapsed_seconds : field Q;
  estimated_duration_seconds : field Q;
  custom_name : field string;
  title : field string;
  error_message : field string;
  is_duet : bool;
}.

Definition ids (jobs : list t) : list string := job_id <$> jobs.

End Job.

(** ** services/api.js: the remote calls the job queue makes *)

Module Api.
Import JS.

Inductive Call :=
| ListJobs (limit offset : Z)
| CancelJob (jobId : string)
| RetryJob (jobId : string)
| DeleteJob (jobId : string).

(** [response.data]; only [listJobs] callers read [jobs]. *)
Record Data := { jobs : list Job.t }.

Inductive Reply :=
| Fulfilled (data : Data)
| Rejected (e : JsError).

End Api.

(** ** components/ProgressCard.vue *)

Module ProgressCard.
Import JS.

(** The catalog of pipeline steps: key and label, in order. *)
Definition steps : list (string * string) :=
  [ ("downloading", "Downloading audio");
    ("separating", "Separating vocals");
    ("transcribing", "Transcribing lyrics");
    ("pitching", "Detecting pitch");
    ("generating", "Generating file") ].

(** [Array.prototype.findIndex]: the first position whose element passes
    the test, [-1] when there is none. *)
Fixpoint findIndex_from {A} (p : A → bool) (l : list A) (i : Z) : Z :=
  match l with
  | [] => -1
  | x :: rest => if p x then i else findIndex_from p rest (i + 1)
  end.
Definition findIndex {A} (p : A → bool) (l : list A) : Z :=
  findIndex_from p l 0.

(** [key === v] for a [v] that may be missing. *)
Definition strict_eq (key : string) (v : field string) : bool :=
  match v with Val s => String.eqb key s | _ => false end.

(** The value of a string property when it is truthy. *)
Definition truthy_string (v : field string) : option string :=
  match v with
  | Val s => if truthy s then Some s else None
  | _ => None
  end.

Section Card.

(** [progress.value], the ref the push channel writes, and [props.job],
    the snapshot the job queue passes down. *)
Variable progress : field Job.Progress.
Variable job : Job.t.

Definition displayName : string :=
  match truthy_string (Job.custom_name job) with
  | Some s => s
  | None =>
      match truthy_string (Job.title job) with
      | Some s => s
      | None => "Processing..."
      end
  end.

(** The position is an integer and is printed in decimal, as the
    template literal does for every integer below 1e21. *)
Definition queueMessage : field string :=
  match Job.queue_position job with
  | Val pos =>
      if pos =? 0 then Val "⚡ Currently processing"
      else Val ("📋 Position " +:+ pretty pos +:+ " in queue")
  | _ => Null
  end.

Definition currentStepMessage : string :=
  match truthy_string (chain progress Job.message) with
  | Some s => s
  | None =>
      match truthy_string (chain (Job.progress job) Job.message) with
      | Some s => s
      | None => "Initializing..."
      end
  end.

Definition progressPercentage : Z :=
  match round_field (chain progress Job.percentage) with
  | Some z => z
  | None =>
      match round_field (chain (Job.progress job) Job.percentage) with
      | Some z => z
      | None => 0
      end
  end.

(** [progress.value?.step || props.job.progress?.step] *)
Definition currentStep : field string :=
  or_else (chain progress Job.step) (chain (Job.progress job) Job.step).

(** The body of [getStepStatus] once [currentStep] is known. *)
Definition stepStatus (currentStep : field string) (stepKey : string) : string :=
  let stepIndex := findIndex (λ s, String.eqb s.1 stepKey) steps in
  let currentIndex := findIndex (λ s, strict_eq s.1 currentStep) steps in
  if currentIndex =? -1 then "pending"
  else if stepIndex <? currentIndex then "completed"
  else if stepIndex =? currentIndex then "active"
  else "pending".

Definition getStepStatus (stepKey : string) : string :=
  stepStatus currentStep stepKey.

(** [progress.value?.elapsed_seconds || props.job.progress?.elapsed_seconds
     || props.job.elapsed_seconds] *)
Definition seconds : field Q :=
  or_else
    (or_else (chain progress Job.elapsed_seconds)
             (chain (Job.progress job) Job.elapsed_seconds))
    (Job.job_elapsed_seconds job).

(** [formatDuration] and [formatTimeRemaining] come from [@/utils/time]. *)
Variable formatDuration : Q → string.
Variable formatTimeRemaining : Q → Q → string.

Definition elapsedTime : field string :=
  match seconds with
  | Val q => if truthy q then Val (formatDuration q) else Null
  | _ => Null
  end.

Definition estimatedRemaining : field string :=
  match Job.estimated_duration_seconds job, seconds with
  | Val estimated, Val elapsed =>
      if truthy estimated && truthy elapsed
      then Val (formatTimeRemaining estimated elapsed)
      else Null
  | _, _ => Null
  end.

(** *** The template *)

(** The "Time:" row of the metadata block: [v-if="elapsedTime"], under
    no condition on the status. *)
Definition metadataTime : field string := elapsedTime.

Definition is_status (s : string) : bool := String.eqb (Job.status job) s.

(** The progress bar block: [v-if="job.status === 'processing' ||
    job.status === 'queued'"]. *)
Record ProgressBar := {
  bar_message : string;
  bar_percentage : Z;
  bar_elapsed : field string;
  bar_remaining : field string;
}.

Definition progressBar : option ProgressBar :=
  if is_status "processing" || is_status "queued" then
    Some {| bar_message := currentStepMessage;
            bar_percentage := progressPercentage;
            bar_elapsed := elapsedTime;
            bar_remaining := estimatedRemaining |}
  else None.

(** The step indicators: [v-if="job.status === 'processing'"], one row
    per step with its label and status. *)
Definition stepIndicators : option (list (string * string)) :=
  if is_status "processing" then
    Some ((λ s, (s.2, getStepStatus s.1)) <$> steps)
  else None.

(** The events the card can emit, one per rendered button. *)
Inductive Emit :=
| EmitCancel (jobId : string)
| EmitRetry (jobId : string)
| EmitDelete (jobId : string)
| EmitPreview (jobId : string).

Definition buttons : list Emit :=
  (if is_status "completed" then [EmitPreview (Job.job_id job)] else [])
  ++ (if is_status "processing" || is_status "queued"
      then [EmitCancel (Job.job_id job)] else [])
  ++ (if is_status "failed" || is_status "cancelled"
      then [EmitRetry (Job.job_id job)] else [])
  ++ [EmitDelete (Job.job_id job)].

End Card.

End ProgressCard.

(** ** The job queue component *)

Module JobQueue.
Import JS.

(** The refs of the component. *)
Record State := {
  jobs : list Job.t;
  isLoading : bool;
  selectedFilter : string;
}.

(** What a handler does to the outside, in order. *)
Inductive Effect :=
| Request (c : Api.Call)
| ConsoleError (msg : string) (e : JsError)
| Alert (msg : string)
| Confirm (msg : string).

(** The outside world: how the remote system answers a call and how the
    user answers a [confirm], each as a function of everything that
    happened before. *)
Record Env := {
  reply : list Effect → Api.Call → Api.Reply;
  confirm_answer : list Effect → string → bool;
}.

Definition World : Type := State * list Effect.

(** An [async] function body run to completion: it reads the
    environment, updates the refs, appends to the log, and completes
    normally or by throwing. *)
Definition M (A : Type) : Type := Env → World → Completion A * World.

Global Instance M_ret : MRet M := λ A a _ w, (Normal a, w).
Global Instance M_bind : MBind M := λ A B f m env w,
  match m env w with
  | (Normal a, w') => f a env w'
  | (Throw e, w') => (Throw e, w')
  end.

(** [try { body } catch (error) { handler }] *)
Definition try_catch {A} (body : M A) (handler : JsError → M A) : M A :=
  λ env w,
    match body env w with
    | (Normal a, w') => (Normal a, w')
    | (Throw e, w') => handler e env w'
    end.

(** [try { body } finally { fin }] *)
Definition try_finally {A} (body : M A) (fin : M unit) : M A :=
  λ env w,
    match body env w with
    | (c, w') =>
        match fin env w' with
        | (Normal _, w'') => (c, w'')
        | (Throw e, w'') => (Throw e, w'')
        end
    end.

Definition effect (e : Effect) : M unit :=
  λ _ w, (Normal (), (w.1, w.2 ++ [e])).

Definition set_jobs (js : list Job.t) : M unit :=
  λ _ w, (Normal (), ({| jobs := js; isLoading := isLoading w.1;
                         selectedFilter := selectedFilter w.1 |}, w.2)).
Definition set_isLoading (b : bool) : M unit :=
  λ _ w, (Normal (), ({| jobs := jobs w.1; isLoading := b;
                         selectedFilter := selectedFilter w.1 |}, w.2)).
Definition set_selectedFilter (f : string) : M unit :=
  λ _ w, (Normal (), ({| jobs := jobs w.1; isLoading := isLoading w.1;
                         selectedFilter := f |}, w.2)).

(** [await call(...)]: the request is logged; a rejected promise throws. *)
Definition await (c : Api.Call) : M Api.Data :=
  λ env w,
    match reply env w.2 c with
    | Api.Fulfilled d => (Normal d, (w.1, w.2 ++ [Request c]))
    | Api.Rejected e => (Throw e, (w.1, w.2 ++ [Request c]))
    end.

Definition confirm (msg : string) : M bool :=
  λ env w, (Normal (confirm_answer env w.2 msg), (w.1, w.2 ++ [Confirm msg])).

(** [listJobs()] with its default arguments. *)
Definition listJobs : M Api.Data := await (Api.ListJobs 50 0).

Definition refreshJobs : M unit :=
  set_isLoading true;;
  try_finally
    (try_catch
       (response ← listJobs;
        set_jobs (Api.jobs response))
       (λ error, effect (ConsoleError "Failed to load jobs:" error)))
    (set_isLoading false).

Definition handleCancel (jobId : string) : M unit :=
  try_catch
    (await (Api.CancelJob jobId);;
     refreshJobs)
    (λ error,
       effect (ConsoleError "Failed to cancel job:" error);;
       effect (Alert "Failed to cancel job")).

(** [error.response?.data?.detail || error.message] *)
Definition error_reason (error : JsError) : field string :=
  match error with
  | AxiosError detail message => or_else detail message
  | ReferenceError name => Val (name +:+ " is not defined")
  end.

Definition handleRetry (jobId : string) : M unit :=
  try_catch
    (await (Api.RetryJob jobId);;
     refreshJobs;;
     set_selectedFilter "processing")
    (λ error,
       effect (ConsoleError "Failed to retry job:" error);;
       effect (Alert ("Failed to retry job: " +:+ to_string (error_reason error)))).

Definition handleDelete (jobId : string) : M unit :=
  ok ← confirm "Are you sure you want to delete this job?";
  if negb ok then mret ()
  else
    try_catch
      (await (Api.DeleteJob jobId);;
       refreshJobs)
      (λ error,
         effect (ConsoleError "Failed to delete job:" error);;
         effect (Alert "Failed to delete job")).

(** [onMounted]: [refreshJobs()] with its initial refs. *)
Definition initial : State :=
  {| jobs := []; isLoading := false; selectedFilter := "all" |}.

(** The listeners the template puts on every card: [@cancel], [@delete]
    and [@retry]; [preview] has none. *)
Definition on_emit (e : ProgressCard.Emit) : M unit :=
  match e with
  | ProgressCard.EmitCancel jobId => handleCancel jobId
  | ProgressCard.EmitRetry jobId => handleRetry jobId
  | ProgressCard.EmitDelete jobId => handleDelete jobId
  | ProgressCard.EmitPreview _ => mret ()
  end.

(** The new part of the log a handler leaves behind. *)
Definition effects_of (m : M unit) (env : Env) (w : World) : list Effect :=
  drop (length w.2) (m env w).2.2.

End JobQueue.

(** ** One card fed by both channels *)

Module Channels.
Import JS.

(** A mounted card: the snapshot it was last given and its push ref. *)
Record Card := {
  job : Job.t;
  progress : field Job.Progress;
}.

(** What reaches the card of one job: a poll cycle starts, a poll
    snapshot carrying the job arrives, a push event arrives. *)
Inductive Update :=
| PollStart
| PollSnapshot (snapshot : Job.t)
| PushEvent (event : Job.Progress).

(** Modelled from the spec: the three terminal statuses. *)
Definition terminal (status : string) : bool :=
  String.eqb status "completed" || String.eqb status "failed"
  || String.eqb status "cancelled".

(** Modelled from the spec: one field of the field-level merge, "fields
    present in the incoming partial overwrite the corresponding stored
    field; fields absent are left untouched". *)
Definition merge_field {A} (incoming stored : field A) : field A :=
  match incoming with
  | Undefined => stored
  | _ => incoming
  end.

(** Modelled from the spec: the composable [useWebSocket] imported by the
    card is not among the sources. Its [progress] ref starts empty. *)
Definition useWebSocket_init : field Job.Progress := Null.

(** Modelled from the spec: a push event is a partial progress event,
    merged into the stored one field by field, so an absent [percentage]
    or [elapsed_seconds] leaves the stored value unchanged; the first
    event is stored as it comes. *)
Definition applySnapshot (event : Job.Progress)
    (stored : field Job.Progress) : field Job.Progress :=
  match stored with
  | Val p =>
      Val {| Job.message := merge_field (Job.message event) (Job.message p);
             Job.percentage :=
               merge_field (Job.percentage event) (Job.percentage p);
             Job.step := merge_field (Job.step event) (Job.step p);
             Job.elapsed_seconds :=
               merge_field (Job.elapsed_seconds event)
                           (Job.elapsed_seconds p) |}
  | _ => Val event
  end.

(** Modelled from the spec: a push event is applied "immediately,
    unconditionally", except that an event "whose job status (last
    known) is already terminal" is ignored. *)
Definition useWebSocket_onmessage (status : string) (event : Job.Progress)
    (stored : field Job.Progress) : field Job.Progress :=
  if terminal status then stored else applySnapshot event stored.

(** A card is mounted with the snapshot of the poll that first lists it. *)
Definition mount (snapshot : Job.t) : Card :=
  {| job := snapshot; progress := useWebSocket_init |}.

(** [refreshJobs] assigns the returned list to [jobs], which hands each
    card its new snapshot as [props.job]; it touches nothing else of the
    card, neither when it starts nor when the answer arrives. *)
Definition update (c : Card) (u : Update) : Card :=
  match u with
  | PollStart => c
  | PollSnapshot snapshot => {| job := snapshot; progress := progress c |}
  | PushEvent event =>
      {| job := job c;
         progress :=
           useWebSocket_onmessage (Job.status (job c)) event (progress c) |}
  end.

Definition replay (c : Card) (us : list Update) : Card := foldl update c us.

(** The four progress values a card presents. *)
Record Presented := {
  shown_percentage : Z;
  shown_stage : field string;
  shown_message : string;
  shown_elapsed : field Q;
}.

Definition presented (c : Card) : Presented :=
  {| shown_percentage := ProgressCard.progressPercentage (progress c) (job c);
     shown_stage := ProgressCard.currentStep (progress c) (job c);
     shown_message := ProgressCard.currentStepMessage (progress c) (job c);
     shown_elapsed := ProgressCard.seconds (progress c) (job c) |}.

(** Whether an update comes from the poll channel. *)
Definition from_poll (u : Update) : bool :=
  match u with PushEvent _ => false | _ => true end.

(** The most recent poll snapshot, [j0] when none arrived since mounting. *)
Definition last_snapshot (j0 : Job.t) (us : list Update) : Job.t :=
  foldl (λ acc u, match u with PollSnapshot j => j | _ => acc end) j0 us.

(** The freshness test in the words of the precedence rule: the most
    recent push event, provided it arrived after the last poll cycle
    began. *)
Definition push_since_last_poll_start (us : list Update) : option Job.Progress :=
  foldl (λ acc u,
           match u with
           | PollStart => None
           | PushEvent e => Some e
           | PollSnapshot _ => acc
           end) None us.

End Channels.

(** ** Sample data *)

Module Samples.
Import JS.

Definition progress_at (stage : string) (pct : Q) : Job.Progress :=
  {| Job.message := Undefined; Job.percentage := Val pct;
     Job.step := Val stage; Job.elapsed_seconds := Undefined |}.

Definition job (id status : string) (pos : field Z)
    (progress : field Job.Progress) : Job.t :=
  {| Job.job_id := id; Job.status := status; Job.queue_position := pos;
     Job.progress := progress; Job.job_elapsed_seconds := Undefined;
     Job.estimated_duration_seconds := Undefined;
     Job.custom_name := Undefined; Job.title := Val "song.mp3";
     Job.error_message := Undefined; Job.is_duet := false |}.

Definition queue (js : list Job.t) : JobQueue.World :=
  ({| JobQueue.jobs := js; JobQueue.isLoading := false;
      JobQueue.selectedFilter := "all" |}, []).

(** A remote system that accepts every command and lists [js]. *)
Definition remote_listing (js : list Job.t) : JobQueue.Env :=
  {| JobQueue.reply := λ _ _, Api.Fulfilled {| Api.jobs := js |};
     JobQueue.confirm_answer := λ _ _, true |}.

(** A remote system that refuses every request with [e]. *)
Definition remote_refusing (e : JsError) : JobQueue.Env :=
  {| JobQueue.reply := λ _ _, Api.Rejected e;
     JobQueue.confirm_answer := λ _ _, true |}.

Definition conflict : JsError :=
  AxiosError (Val "Job is not in a retryable state")
             (Val "Request failed with status code 400").

Definition network_error : JsError :=
  AxiosError Undefined (Val "Network Error").

End Samples.

(** ** A card inside the job queue *)

Module CardEvents.
Import JS.

Global Instance Emit_eq_dec : EqDecision ProgressCard.Emit.
Proof. solve_decision. Defined.

(** Invoking the action behind the event [e] on the card of [job]. The
    job queue's handlers are bound to the events of its cards and to
    nothing else, and a card emits an event only from the button its
    template renders for the job's status. So the action goes through to
    the bound handler when that button is there, and is turned down on
    the spot, with nothing done, when it is not. *)
Definition press (job : Job.t) (e : ProgressCard.Emit) : JobQueue.M unit :=
  if bool_decide (e ∈ ProgressCard.buttons job) then JobQueue.on_emit e
  else mret ().

End CardEvents.

(** ** The job queue component: filter tabs and shown cards *)

Module JobQueueView.
Import JS.

(** The [counts] object at the start of [jobCounts]. *)
Definition counts_init (jobs : list Job.t) : gmap string Z :=
  {[ "all" := Z.of_nat (length jobs) ]} ∪ {[ "queued" := 0 ]}
    ∪ {[ "processing" := 0 ]} ∪ {[ "completed" := 0 ]}
    ∪ {[ "failed" := 0 ]} ∪ {[ "cancelled" := 0 ]}.

(** [if (counts[job.status] !== undefined) counts[job.status]++]. A
    status that names an inherited property of the object passes the
    test too, which only adds a property no reader looks at; the six own
    keys are what is kept here. *)
Definition count_job (counts : gmap string Z) (job : Job.t) : gmap string Z :=
  match counts !! Job.status job with
  | Some n => <[ Job.status job := n + 1 ]> counts
  | None => counts
  end.

Definition jobCounts (jobs : list Job.t) : gmap string Z :=
  foldl count_job (counts_init jobs) jobs.

(** [jobCounts.value.key] for one of the six keys. *)
Definition count (counts : gmap string Z) (key : string) : Z :=
  default 0 (counts !! key).

Record Filter := {
  value : string;
  label : string;
  filter_count : Z;
}.

Definition statusFilters (jobs : list Job.t) : list Filter :=
  let counts := jobCounts jobs in
  [ {| value := "all"; label := "All"; filter_count := count counts "all" |};
    {| value := "processing"; label := "Active";
       filter_count := count counts "queued" + count counts "processing" |};
    {| value := "completed"; label := "Completed";
       filter_count := count counts "completed" |};
    {| value := "failed"; label := "Failed";
       filter_count := count counts "failed" |};
    {| value := "cancelled"; label := "Cancelled";
       filter_count := count counts "cancelled" |} ].

(** The count badge of a tab: [v-if="filter.count > 0"]. *)
Definition badge (f : Filter) : option Z :=
  if 0 <? filter_count f then Some (filter_count f) else None.

Definition has_status (s : string) (job : Job.t) : bool :=
  String.eqb (Job.status job) s.

Definition filteredJobs (st : JobQueue.State) : list Job.t :=
  if String.eqb (JobQueue.selectedFilter st) "all" then JobQueue.jobs st
  else if String.eqb (JobQueue.selectedFilter st) "processing" then
    List.filter (λ job, has_status "queued" job || has_status "processing" job)
                (JobQueue.jobs st)
  else
    List.filter (has_status (JobQueue.selectedFilter st)) (JobQueue.jobs st).

(** How many jobs have the status [key]. *)
Definition occurrences (key : string) (jobs : list Job.t) : Z :=
  Z.of_nat (length (List.filter (has_status key) jobs)).

(** [@click="selectedFilter = filter.value"] *)
Definition select (f : Filter) (st : JobQueue.State) : JobQueue.State :=
  {| JobQueue.jobs := JobQueue.jobs st;
     JobQueue.isLoading := JobQueue.isLoading st;
     JobQueue.selectedFilter := value f |}.

(** Which of the four blocks under the tabs is rendered. *)
Inductive Pane :=
| Skeleton
| NoJobsYet
| NoResults (selectedFilter : string)
| Cards (shown : list Job.t).

Definition pane (st : JobQueue.State) : Pane :=
  if JobQueue.isLoading st && (length (JobQueue.jobs st) =? 0)%nat then Skeleton
  else if (length (filteredJobs st) =? 0)%nat
          && (length (JobQueue.jobs st) =? 0)%nat then NoJobsYet
  else if (length (filteredJobs st) =? 0)%nat
       then NoResults (JobQueue.selectedFilter st)
  else Cards (filteredJobs st).

(** The remote calls in a log, in order. *)
Definition requests (log : list JobQueue.Effect) : list Api.Call :=
  omap (λ e, match e with JobQueue.Request c => Some c | _ => None end) log.

(** The remote command behind an event of a card. *)
Definition command (e : ProgressCard.Emit) : option Api.Call :=
  match e with
  | ProgressCard.EmitCancel jobId => Some (Api.CancelJob jobId)
  | ProgressCard.EmitRetry jobId => Some (Api.RetryJob jobId)
  | ProgressCard.EmitDelete jobId => Some (Api.DeleteJob jobId)
  | ProgressCard.EmitPreview _ => None
  end.

(** The log at the moment a handler sends its command: [handleDelete]
    has asked for confirmation by then. *)
Definition log_at_command (e : ProgressCard.Emit) (w : JobQueue.World)
    : list JobQueue.Effect :=
  match e with
  | ProgressCard.EmitDelete _ =>
      w.2 ++ [JobQueue.Confirm "Are you sure you want to delete this job?"]
  | _ => w.2
  end.

(** Whether the handler gets as far as sending its command. *)
Definition goes_ahead (e : ProgressCard.Emit) (env : JobQueue.Env)
    (w : JobQueue.World) : bool :=
  match e with
  | ProgressCard.EmitDelete _ =>
      JobQueue.confirm_answer env w.2 "Are you sure you want to delete this job?"
  | _ => true
  end.

End JobQueueView.

(** ** services/api.js: addresses and upload progress *)

Module ApiUrls.
Import JS.

(** [import.meta.env.VITE_API_URL || 'http://localhost:8000'] *)
Definition API_BASE_URL (VITE_API_URL : field string) : string :=
  match ProgressCard.truthy_string VITE_API_URL with
  | Some url => url
  | None => "http://localhost:8000"
  end.

(** A default parameter steps in for [undefined] only; in a template
    literal [null] reads "null". *)
Definition with_default (default : string) (v : field string) : string :=
  match v with
  | Undefined => default
  | Null => "null"
  | Val s => s
  end.

Section Urls.

Variable VITE_API_URL : field string.

Definition downloadResult (jobId : string) (fileType : field string) : string :=
  API_BASE_URL VITE_API_URL +:+ "/api/jobs/" +:+ jobId
    +:+ "/download?file_type=" +:+ with_default "main" fileType.

Definition downloadZip (jobId : string) : string :=
  API_BASE_URL VITE_API_URL +:+ "/api/jobs/" +:+ jobId +:+ "/download-zip".

Definition exportResult (jobId format : string) : string :=
  API_BASE_URL VITE_API_URL +:+ "/api/jobs/" +:+ jobId
    +:+ "/export?format=" +:+ format.

(** The computed addresses of a progress card. *)
Definition downloadUrl (job : Job.t) : string :=
  downloadResult (Job.job_id job) Undefined.
Definition downloadDuetUrl (job : Job.t) : string :=
  downloadResult (Job.job_id job) (Val "duet").
Definition downloadSolo1Url (job : Job.t) : string :=
  downloadResult (Job.job_id job) (Val "solo1").
Definition downloadSolo2Url (job : Job.t) : string :=
  downloadResult (Job.job_id job) (Val "solo2").
Definition downloadZipUrl (job : Job.t) : string :=
  downloadZip (Job.job_id job).
Definition exportUrl (job : Job.t) (format : string) : string :=
  exportResult (Job.job_id job) format.

(** The download links in the success block of a completed job: one for
    a solo job, four for a duet. *)
Definition downloadLinks (job : Job.t) : list string :=
  if Job.is_duet job then
    [downloadDuetUrl job; downloadSolo1Url job; downloadSolo2Url job;
     downloadZipUrl job]
  else [downloadUrl job].

(** The four export links under them. *)
Definition exportLinks (job : Job.t) : list string :=
  exportUrl job <$> ["srt"; "lrc"; "json"; "txt"].

End Urls.

(** [Math.round((progressEvent.loaded * 100) / progressEvent.total)] in
    [onUploadProgress]. With a total that is missing, [null] or 0 the
    quotient is NaN or infinite and there is no integer to report. The
    quotient is taken exactly, not in floating point. *)
Definition uploadPercentage (loaded : Z) (total : field Z) : option Z :=
  match total with
  | Val t =>
      if t =? 0 then None
      else Some (Math_round (inject_Z (loaded * 100) / inject_Z t)%Q)
  | _ => None
  end.

End ApiUrls.

(** ** The preview modal *)

Module PreviewModal.
Import JS.

(** What [previewResult] resolves to. *)
Record PreviewData := {
  content : string;
  total_lines : Z;
  preview_lines : Z;
  is_complete : bool;
}.

Inductive Reply :=
| Fulfilled (data : PreviewData)
| Rejected (err : JsError).

(** The refs of the component. *)
Record State := {
  loading : bool;
  error : field string;
  shown_content : string;
  totalLines : Z;
  previewLines : Z;
  isComplete : bool;
  wordWrap : bool;
}.

Definition initial : State :=
  {| loading := false; error := Null; shown_content := "";
     totalLines := 0; previewLines := 0; isComplete := true;
     wordWrap := false |}.

(** The character of ['\n']. *)
Definition newline : Ascii.ascii := Ascii.ascii_of_nat 10.

(** [content.split('\n')] *)
Fixpoint split_lines (s : string) : list string :=
  match s with
  | EmptyString => [""]
  | String c rest =>
      if Ascii.eqb c newline then "" :: split_lines rest
      else
        match split_lines rest with
        | line :: lines => String c line :: lines
        | [] => [String c ""]
        end
  end.

Definition lineCount (st : State) : nat :=
  length (split_lines (shown_content st)).

Definition previewInfo (st : State) : string :=
  if loading st then "Loading..."
  else if truthy (error st) then "Error"
  else if isComplete st then
    "Complete file (" +:+ pretty (totalLines st) +:+ " lines)"
  else
    "Preview (" +:+ pretty (previewLines st) +:+ " of "
      +:+ pretty (totalLines st) +:+ " lines)".

(** [loadPreview] up to its [await]: what is on screen while the request
    is out. *)
Definition loadPreview_begin (st : State) : State :=
  {| loading := true; error := Null; shown_content := "";
     totalLines := totalLines st; previewLines := previewLines st;
     isComplete := isComplete st; wordWrap := wordWrap st |}.

(** [err.response?.data?.detail || err.message || 'Failed to load preview'] *)
Definition failure_text (err : JsError) : field string :=
  or_else (JobQueue.error_reason err) (Val "Failed to load preview").

(** [loadPreview] from the settled [await] on: the [try] body or the
    [catch], then the [finally]. *)
Definition loadPreview_settle (r : Reply) (st : State) : State :=
  match r with
  | Fulfilled data =>
      {| loading := false; error := error st;
         shown_content := content data; totalLines := total_lines data;
         previewLines := preview_lines data; isComplete := is_complete data;
         wordWrap := wordWrap st |}
  | Rejected err =>
      {| loading := false; error := failure_text err;
         shown_content := shown_content st; totalLines := totalLines st;
         previewLines := previewLines st; isComplete := isComplete st;
         wordWrap := wordWrap st |}
  end.

Definition loadPreview (r : Reply) (st : State) : State :=
  loadPreview_settle r (loadPreview_begin st).

(** The body of the modal: spinner, error text, or the text with its
    footer (line count, and the "showing first n of m" note of a partial
    preview). *)
Inductive Body :=
| Spinner
| ErrorText (msg : field string)
| Text (text : string) (lines : nat) (partial : option (Z * Z)).

Definition body (st : State) : Body :=
  if loading st then Spinner
  else if truthy (error st) then ErrorText (error st)
  else Text (shown_content st) (lineCount st)
            (if isComplete st then None
             else Some (previewLines st, totalLines st)).

End PreviewModal.

(** ** components/UploadForm.vue *)

Module UploadForm.
Import JS.

Record File := {
  name : string;
  size : Z;
}.

(** The refs of the form. [errors] is an object with the keys
    [youtubeUrl] and [file], each a message or [null]. *)
Record State := {
  sourceType : string;
  youtubeUrl : string;
  selectedFile : field File;
  selectedLanguage : string;
  selectedQuality : string;
  isDragging : bool;
  isSubmitting : bool;
  errors : gmap string (field string);
  isDuetMode : bool;
  speaker1Name : string;
  speaker2Name : string;
}.

Definition initial : State :=
  {| sourceType := "youtube"; youtubeUrl := ""; selectedFile := Null;
     selectedLanguage := "en"; selectedQuality := "balanced";
     isDragging := false; isSubmitting := false; errors := ∅;
     isDuetMode := false; speaker1Name := ""; speaker2Name := "" |}.

Definition set_errors (e : gmap string (field string)) (st : State) : State :=
  {| sourceType := sourceType st; youtubeUrl := youtubeUrl st;
     selectedFile := selectedFile st;
     selectedLanguage := selectedLanguage st;
     selectedQuality := selectedQuality st; isDragging := isDragging st;
     isSubmitting := isSubmitting st; errors := e;
     isDuetMode := isDuetMode st; speaker1Name := speaker1Name st;
     speaker2Name := speaker2Name st |}.

Definition set_selectedFile (f : field File) (st : State) : State :=
  {| sourceType := sourceType st; youtubeUrl := youtubeUrl st;
     selectedFile := f;
     selectedLanguage := selectedLanguage st;
     selectedQuality := selectedQuality st; isDragging := isDragging st;
     isSubmitting := isSubmitting st; errors := errors st;
     isDuetMode := isDuetMode st; speaker1Name := speaker1Name st;
     speaker2Name := speaker2Name st |}.

Definition set_isDragging (b : bool) (st : State) : State :=
  {| sourceType := sourceType st; youtubeUrl := youtubeUrl st;
     selectedFile := selectedFile st;
     selectedLanguage := selectedLanguage st;
     selectedQuality := selectedQuality st; isDragging := b;
     isSubmitting := isSubmitting st; errors := errors st;
     isDuetMode := isDuetMode st; speaker1Name := speaker1Name st;
     speaker2Name := speaker2Name st |}.

Definition set_isSubmitting (b : bool) (st : State) : State :=
  {| sourceType := sourceType st; youtubeUrl := youtubeUrl st;
     selectedFile := selectedFile st;
     selectedLanguage := selectedLanguage st;
     selectedQuality := selectedQuality st; isDragging := isDragging st;
     isSubmitting := b; errors := errors st;
     isDuetMode := isDuetMode st; speaker1Name := speaker1Name st;
     speaker2Name := speaker2Name st |}.

(** The reset at the end of a successful submit. *)
Definition reset_form (st : State) : State :=
  {| sourceType := sourceType st; youtubeUrl := "";
     selectedFile := Null;
     selectedLanguage := selectedLanguage st;
     selectedQuality := selectedQuality st; isDragging := isDragging st;
     isSubmitting := isSubmitting st; errors := ∅;
     isDuetMode := isDuetMode st; speaker1Name := speaker1Name st;
     speaker2Name := speaker2Name st |}.

(** Truthiness of an object reference. *)
Definition present {A} (v : field A) : bool :=
  match v with Val _ => true | _ => false end.

(** [handleFileSelect]; [file] is [event.target.files[0]]. *)
Definition handleFileSelect (file : field File) (st : State) : State :=
  if present file then
    set_errors (<[ "file" := Null ]> (errors st)) (set_selectedFile file st)
  else st.

(** [handleDrop]; [file] is [event.dataTransfer.files[0]]. *)
Definition handleDrop (file : field File) (st : State) : State :=
  handleFileSelect file (set_isDragging false st).

(** [s] without the front [p], when it starts with it. *)
Fixpoint strip_prefix (p s : string) : option string :=
  match p, s with
  | EmptyString, _ => Some s
  | String a p', String b s' =>
      if Ascii.eqb a b then strip_prefix p' s' else None
  | String _ _, EmptyString => None
  end.

(** Whether the text starts with a line terminator: a line feed, a
    carriage return, or U+2028 or U+2029 (in UTF-8, E2 80 A8 and
    E2 80 A9). *)
Definition starts_with_line_terminator (s : string) : bool :=
  match s with
  | String a rest =>
      match Ascii.nat_of_ascii a with
      | 10%nat | 13%nat => true
      | 226%nat =>
          match rest with
          | String b (String c _) =>
              (Ascii.nat_of_ascii b =? 128)%nat
              && ((Ascii.nat_of_ascii c =? 168)%nat
                  || (Ascii.nat_of_ascii c =? 169)%nat)
          | _ => false
          end
      | _ => false
      end
  | EmptyString => false
  end.

(** [.+] at the end of a pattern: at least one character, the first of
    which is no line terminator. *)
Definition dot_plus (s : string) : bool :=
  match s with
  | EmptyString => false
  | _ => negb (starts_with_line_terminator s)
  end.

(** [/^(https?:\/\/)?(www\.)?(youtube\.com|youtu\.be)\/.+/.test(s)]:
    some choice of the optional parts and of the host is a front of [s],
    followed by a slash and [.+]. *)
Definition youtubeRegex_test (s : string) : bool :=
  existsb (λ scheme,
    existsb (λ www,
      existsb (λ host,
        match strip_prefix (scheme +:+ www +:+ host +:+ "/") s with
        | Some rest => dot_plus rest
        | None => false
        end) ["youtube.com"; "youtu.be"])
      ["www."; ""])
    ["https://"; "http://"; ""].

(** [validateForm]: the value returned and the form with its new
    [errors]. *)
Definition validateForm (st : State) : bool * State :=
  let st := set_errors ∅ st in
  if String.eqb (sourceType st) "youtube" then
    if negb (truthy (youtubeUrl st)) then
      (false, set_errors (<[ "youtubeUrl" := Val "Please enter a YouTube URL" ]>
                            (errors st)) st)
    else if negb (youtubeRegex_test (youtubeUrl st)) then
      (false, set_errors
                (<[ "youtubeUrl" := Val "Please enter a valid YouTube URL" ]>
                   (errors st)) st)
    else (true, st)
  else
    if negb (present (selectedFile st)) then
      (false, set_errors (<[ "file" := Val "Please select an audio file" ]>
                            (errors st)) st)
    else (true, st).

(** The body of the [createJob] request. *)
Record JobData := {
  source : string;
  language : string;
  quality : string;
  youtube_url : field string;
  upload_filename : field string;
  is_duet : bool;
  speaker_1_name : field string;
  speaker_2_name : field string;
}.

(** [name || null] *)
Definition or_null (s : string) : field string :=
  if truthy s then Val s else Null.

Definition jobData (st : State) (uploadFilename : field string) : JobData :=
  {| source := sourceType st;
     language := selectedLanguage st;
     quality := selectedQuality st;
     youtube_url :=
       if String.eqb (sourceType st) "youtube" then Val (youtubeUrl st) else Null;
     upload_filename := uploadFilename;
     is_duet := isDuetMode st;
     speaker_1_name := or_null (speaker1Name st);
     speaker_2_name := or_null (speaker2Name st) |}.

(** What [handleSubmit] does to the outside, in order. *)
Inductive Effect :=
| Upload (file : field File)
| CreateJob (data : JobData)
| EmitJobCreated (job : Job.t)
| ConsoleError (msg : string) (e : JsError)
| Alert (msg : string).

(** How the remote system answers, as a function of what happened
    before: an upload with the stored [filename], a job creation with
    the new job. *)
Record Env := {
  upload_reply : list Effect → field File → field string + JsError;
  create_reply : list Effect → JobData → Job.t + JsError;
}.

Definition World : Type := State * list Effect.

Definition M (A : Type) : Type := Env → World → Completion A * World.

Global Instance M_ret : MRet M := λ A a _ w, (Normal a, w).
Global Instance M_bind : MBind M := λ A B f m env w,
  match m env w with
  | (Normal a, w') => f a env w'
  | (Throw e, w') => (Throw e, w')
  end.

Definition try_catch {A} (body : M A) (handler : JsError → M A) : M A :=
  λ env w,
    match body env w with
    | (Normal a, w') => (Normal a, w')
    | (Throw e, w') => handler e env w'
    end.

Definition try_finally {A} (body : M A) (fin : M unit) : M A :=
  λ env w,
    match body env w with
    | (c, w') =>
        match fin env w' with
        | (Normal _, w'') => (c, w'')
        | (Throw e, w'') => (Throw e, w'')
        end
    end.

Definition get : M State := λ _ w, (Normal w.1, w).
Definition modify (f : State → State) : M unit :=
  λ _ w, (Normal (), (f w.1, w.2)).
Definition effect (e : Effect) : M unit :=
  λ _ w, (Normal (), (w.1, w.2 ++ [e])).

(** [await uploadFile(file)], giving [uploadResponse.filename]. *)
Definition uploadFile (file : field File) : M (field string) :=
  λ env w,
    match upload_reply env w.2 file with
    | inl filename => (Normal filename, (w.1, w.2 ++ [Upload file]))
    | inr e => (Throw e, (w.1, w.2 ++ [Upload file]))
    end.

(** [await createJob(jobData)] *)
Definition createJob (data : JobData) : M Job.t :=
  λ env w,
    match create_reply env w.2 data with
    | inl job => (Normal job, (w.1, w.2 ++ [CreateJob data]))
    | inr e => (Throw e, (w.1, w.2 ++ [CreateJob data]))
    end.

(** [handleSubmit], followed on its own: no other handler of the form
    runs while the upload is awaited, so the refs read for the job
    request are those the validation left. *)
Definition handleSubmit : M unit :=
  valid ← (λ _ w, let r := validateForm w.1 in (Normal r.1, (r.2, w.2)));
  if negb valid then mret ()
  else
    modify (set_isSubmitting true);;
    try_finally
      (try_catch
         (st ← get;
          uploadFilename ←
            (if String.eqb (sourceType st) "upload"
             then uploadFile (selectedFile st)
             else mret Null);
          st ← get;
          job ← createJob (jobData st uploadFilename);
          effect (EmitJobCreated job);;
          modify reset_form)
         (λ error,
            effect (ConsoleError "Failed to create job:" error);;
            effect (Alert ("Failed to create job: "
                           +:+ to_string (JobQueue.error_reason error)))))
      (modify (set_isSubmitting false)).

(** The requests in a log, in order. *)
Definition requests (log : list Effect) : list Effect :=
  List.filter (λ e, match e with Upload _ | CreateJob _ => true | _ => false end)
              log.

End UploadForm.

(** * Properties *)

(** ** The permission flag of notifications.js *)

Module NotificationsFacts.
Import JS Notifications.

Lemma request_flag_cases w answer pg :
  (requestNotificationPermission w answer pg).2 = true →
  pg = true ∨
  ((requestNotificationPermission w answer pg).1 = true
   ∧ has_Notification w = true
   ∧ (permission w = "granted" ∨ answer = "granted")).
Proof.
  unfold requestNotificationPermission.
  destruct (has_Notification w); simpl; [|by left].
  destruct (String.eqb_spec (permission w) "granted") as [Hg|Hg]; simpl.
  { intros _. right. auto. }
  destruct (String.eqb (permission w) "denied"); simpl; [by left|].
  destruct (String.eqb_spec answer "granted"); simpl; [|done].
  intros _. right. auto.
Qed.

Lemma step_keeps_flag pg wc :
  is_request wc.2 = false → (step pg wc).2 = pg.
Proof. destruct wc as [w []]; simpl; done. Qed.

Lemma step_unset_shows_nothing w c :
  is_request c = false → (step false (w, c)).1 = Shown (Normal Null).
Proof. destruct c; simpl; done. Qed.

Lemma step_unset_stays_unset wc :
  (step false wc).1 ≠ Answered true → (step false wc).2 = false.
Proof.
  destruct wc as [w [answer| |]]; simpl; try done.
  intros Hr.
  destruct (requestNotificationPermission w answer false) as [r pg'] eqn:E.
  simpl in *. destruct pg'; [|done].
  destruct (request_flag_cases w answer false) as [?|(Hret & _)];
    rewrite ?E in *; simpl in *; congruence.
Qed.

Lemma run_take calls : ∀ pg (i : nat),
  (run pg (take i calls)).1 = take i (run pg calls).1.
Proof.
  induction calls as [|wc calls IH]; intros pg [|i]; simpl; try done.
  by rewrite IH.
Qed.

Lemma run_lookup calls : ∀ pg (i : nat) wc,
  calls !! i = Some wc →
  (run pg calls).1 !! i = Some (step (run pg (take i calls)).2 wc).1.
Proof.
  induction calls as [|wc0 calls IH]; intros pg [|i] wc; simpl; try done.
  - by intros [= ->].
  - apply IH.
Qed.

Lemma run_unset calls :
  Answered true ∉ (run false calls).1 → (run false calls).2 = false.
Proof.
  induction calls as [|wc calls IH] using rev_ind; [done|].
  assert (Hsplit : ∀ pg l x,
    run pg (l ++ [x]) =
      ((run pg l).1 ++ [(step (run pg l).2 x).1], (step (run pg l).2 x).2)).
  { clear. intros pg l x. revert pg.
    induction l as [|y l IHl]; intros pg; simpl; [done|].
    by rewrite IHl. }
  rewrite Hsplit. simpl. intros Hnot.
  assert (Hflag : (run false calls).2 = false).
  { apply IH. intros Hin. apply Hnot, elem_of_app. by left. }
  rewrite Hflag in *.
  apply step_unset_stays_unset. intros Heq. apply Hnot.
  rewrite Heq. apply elem_of_app. right. by apply list_elem_of_singleton.
Qed.

(** C10. In every session of the module, a call to [showNotification] or
    [notifyJobComplete] made while no earlier
    [requestNotificationPermission] call has returned [true] returns
    [null] (so no [Notification] is constructed); the flag starts
    [false], only [requestNotificationPermission] writes it, and it
    becomes [true] only in a call that returns [true] having observed or
    obtained the permission ["granted"]. *)
Theorem ungranted_session_shows_nothing :
  (∀ (calls : list (Browser * Call)) (i : nat) w c,
     calls !! i = Some (w, c) →
     is_request c = false →
     Answered true ∉ take i (results calls) →
     results calls !! i = Some (Shown (Normal Null)))
  ∧ (∀ calls, Answered true ∉ results calls → flag_after calls = false)
  ∧ permissionGranted_init = false
  ∧ (∀ pg wc, is_request wc.2 = false → (step pg wc).2 = pg)
  ∧ (∀ w answer,
       (requestNotificationPermission w answer false).2 = true →
       (requestNotificationPermission w answer false).1 = true
       ∧ has_Notification w = true
       ∧ (permission w = "granted" ∨ answer = "granted")).
Proof.
  split; [|split; [|split; [done|split; [apply step_keeps_flag|]]]].
  - intros calls i w c Hi Hc Hnot. unfold results in *.
    rewrite (run_lookup _ _ _ _ Hi).
    rewrite <- run_take in Hnot.
    unfold permissionGranted_init in *.
    rewrite (run_unset _ Hnot).
    by rewrite step_unset_shows_nothing.
  - intros calls Hnot. by apply run_unset.
  - intros w answer Hset.
    by destruct (request_flag_cases w answer false Hset).
Qed.

Lemma ungranted_session_shows_nothing_witness :
  results
    [ ({| has_Notification := true; permission := "default" |},
       RequestPermission "denied");
      ({| has_Notification := true; permission := "denied" |},
       NotifyJobComplete "song" true) ] !! 1%nat
  = Some (Shown (Normal Null)).
Proof.
  apply (proj1 ungranted_session_shows_nothing _ 1%nat
           {| has_Notification := true; permission := "denied" |}
           (NotifyJobComplete "song" true)).
  - reflexivity.
  - reflexivity.
  - vm_compute. intros Hin.
    apply list_elem_of_singleton in Hin. discriminate Hin.
Defined.

End NotificationsFacts.

(** ** The job queue handlers *)

Module JobQueueFacts.
Import JS JobQueue.

Ltac run_handler :=
  unfold handleCancel, handleRetry, handleDelete, refreshJobs, listJobs,
    try_catch, try_finally, await, confirm, effect, set_jobs, set_isLoading,
    set_selectedFilter, mbind, mret, M_bind, M_ret; simpl.

(** A poll that is answered stores the answer as it is. *)
Lemma refreshJobs_fulfilled env w data :
  reply env w.2 (Api.ListJobs 50 0) = Api.Fulfilled data →
  refreshJobs env w =
    (Normal (),
     ({| jobs := Api.jobs data; isLoading := false;
         selectedFilter := selectedFilter w.1 |},
      w.2 ++ [Request (Api.ListJobs 50 0)])).
Proof. destruct w as [q tr]. run_handler. by intros ->. Qed.

(** A poll that is refused logs the error and stores nothing. *)
Lemma refreshJobs_rejected env w e :
  reply env w.2 (Api.ListJobs 50 0) = Api.Rejected e →
  refreshJobs env w =
    (Normal (),
     ({| jobs := jobs w.1; isLoading := false;
         selectedFilter := selectedFilter w.1 |},
      (w.2 ++ [Request (Api.ListJobs 50 0)])
        ++ [ConsoleError "Failed to load jobs:" e])).
Proof. destruct w as [q tr]. run_handler. by intros ->. Qed.

Lemma refreshJobs_returns env w : (refreshJobs env w).1 = Normal ().
Proof.
  destruct (reply env w.2 (Api.ListJobs 50 0)) as [data|e] eqn:E.
  - by rewrite (refreshJobs_fulfilled _ _ _ E).
  - by rewrite (refreshJobs_rejected _ _ _ E).
Qed.

Lemma effects_of_app (m : M unit) env w new :
  (m env w).2.2 = w.2 ++ new → effects_of m env w = new.
Proof. unfold effects_of. intros ->. by rewrite drop_app_length. Qed.

(** C5. When the poll request fails, [refreshJobs] still completes
    normally (the error is caught and logged, nothing is thrown to the
    caller) and the stored job list is exactly the one from before; the
    only other change is that [isLoading] is back to [false]. *)
Theorem failed_poll_keeps_jobs env w e :
  reply env w.2 (Api.ListJobs 50 0) = Api.Rejected e →
  (refreshJobs env w).1 = Normal ()
  ∧ jobs (refreshJobs env w).2.1 = jobs w.1
  ∧ selectedFilter (refreshJobs env w).2.1 = selectedFilter w.1
  ∧ isLoading (refreshJobs env w).2.1 = false
  ∧ effects_of refreshJobs env w =
      [Request (Api.ListJobs 50 0); ConsoleError "Failed to load jobs:" e].
Proof.
  intros E. rewrite (effects_of_app refreshJobs env w
    [Request (Api.ListJobs 50 0); ConsoleError "Failed to load jobs:" e]).
  - by rewrite (refreshJobs_rejected _ _ _ E).
  - rewrite (refreshJobs_rejected _ _ _ E). simpl. by rewrite <- app_assoc.
Qed.

Lemma failed_poll_keeps_jobs_witness :
  let a := Samples.job "A" "processing" (Val 0) Null in
  jobs (refreshJobs (Samples.remote_refusing Samples.network_error)
                    (Samples.queue [a])).2.1 = [a].
Proof.
  intros a.
  destruct (failed_poll_keeps_jobs
              (Samples.remote_refusing Samples.network_error)
              (Samples.queue [a]) Samples.network_error)
    as (_ & Hjobs & _).
  - reflexivity.
  - exact Hjobs.
Defined.

(** C4. When the remote system refuses a cancel, retry or delete, the
    handler leaves the whole component state (the job list included) as
    it was, reports the failure with an [alert] (for retry with the
    reason the remote gave, else the error message), completes normally,
    and has sent the command exactly once: the request is the only
    remote call in its log. *)
Theorem rejected_command_changes_nothing env w jobId e :
  (reply env w.2 (Api.CancelJob jobId) = Api.Rejected e →
   handleCancel jobId env w =
     (Normal (),
      (w.1, w.2 ++ [Request (Api.CancelJob jobId);
                    ConsoleError "Failed to cancel job:" e;
                    Alert "Failed to cancel job"])))
  ∧ (reply env w.2 (Api.RetryJob jobId) = Api.Rejected e →
     handleRetry jobId env w =
       (Normal (),
        (w.1, w.2 ++ [Request (Api.RetryJob jobId);
                      ConsoleError "Failed to retry job:" e;
                      Alert ("Failed to retry job: "
                             +:+ to_string (error_reason e))])))
  ∧ (confirm_answer env w.2 "Are you sure you want to delete this job?" = true →
     reply env (w.2 ++ [Confirm "Are you sure you want to delete this job?"])
           (Api.DeleteJob jobId) = Api.Rejected e →
     handleDelete jobId env w =
       (Normal (),
        (w.1, w.2 ++ [Confirm "Are you sure you want to delete this job?";
                      Request (Api.DeleteJob jobId);
                      ConsoleError "Failed to delete job:" e;
                      Alert "Failed to delete job"]))).
Proof.
  destruct w as [q tr]. simpl. repeat split.
  - intros E. run_handler. rewrite E. simpl.
    by rewrite <- !app_assoc.
  - intros E. run_handler. rewrite E. simpl.
    by rewrite <- !app_assoc.
  - intros Hyes E. run_handler. rewrite Hyes. simpl. rewrite E. simpl.
    by rewrite <- !app_assoc.
Qed.

Lemma rejected_command_changes_nothing_witness :
  let w := Samples.queue [Samples.job "B" "failed" Null Null] in
  let env := Samples.remote_refusing Samples.conflict in
  (handleCancel "B" env w).2.1 = w.1
  ∧ (handleRetry "B" env w).2 =
      (w.1, [Request (Api.RetryJob "B");
             ConsoleError "Failed to retry job:" Samples.conflict;
             Alert "Failed to retry job: Job is not in a retryable state"])
  ∧ (handleDelete "B" env w).2.1 = w.1.
Proof.
  intros w env.
  destruct (rejected_command_changes_nothing env w "B" Samples.conflict)
    as (Hc & Hr & Hd).
  split; [|split].
  - rewrite Hc; reflexivity.
  - rewrite Hr; reflexivity.
  - rewrite Hd; reflexivity.
Defined.

(** C7. After a poll that is answered, the stored job list is the
    returned snapshot, so no job id that was tracked before and is
    missing from the snapshot is tracked any longer. *)
Theorem absent_jobs_are_dropped env w data :
  reply env w.2 (Api.ListJobs 50 0) = Api.Fulfilled data →
  jobs (refreshJobs env w).2.1 = Api.jobs data
  ∧ ∀ id, id ∈ Job.ids (jobs w.1) →
          id ∉ Job.ids (Api.jobs data) →
          id ∉ Job.ids (jobs (refreshJobs env w).2.1).
Proof.
  intros E. rewrite (refreshJobs_fulfilled _ _ _ E). simpl.
  split; [done|]. by intros id _ Hout.
Qed.

Lemma absent_jobs_are_dropped_witness :
  let a := Samples.job "A" "processing" (Val 0) Null in
  let b := Samples.job "B" "queued" (Val 1) Null in
  let c := Samples.job "C" "queued" (Val 2) Null in
  "B" ∉ Job.ids
    (jobs (refreshJobs (Samples.remote_listing [a; c])
                       (Samples.queue [a; b; c])).2.1).
Proof.
  intros a b c.
  apply (proj2 (absent_jobs_are_dropped (Samples.remote_listing [a; c])
                  (Samples.queue [a; b; c]) {| Api.jobs := [a; c] |}
                  eq_refl) "B").
  - vm_compute. apply list_elem_of_In. simpl. tauto.
  - vm_compute. intros Hin. apply list_elem_of_In in Hin. simpl in Hin.
    destruct Hin as [H|[H|[]]]; discriminate H.
Defined.

Lemma handleCancel_fulfilled env w jobId data :
  reply env w.2 (Api.CancelJob jobId) = Api.Fulfilled data →
  handleCancel jobId env w =
    refreshJobs env (w.1, w.2 ++ [Request (Api.CancelJob jobId)]).
Proof.
  intros E. destruct w as [q tr]. simpl in E.
  pose proof (refreshJobs_returns env (q, tr ++ [Request (Api.CancelJob jobId)]))
    as Hret.
  unfold handleCancel, try_catch, mbind, M_bind, await. simpl. rewrite E.
  destruct (refreshJobs env (q, tr ++ [Request (Api.CancelJob jobId)]))
    as [[[]|err] w']; simpl in *; [done|discriminate Hret].
Qed.

(** C8. For a job that is queued or processing the card offers the
    cancel button, and once the remote cancel has succeeded the handler
    polls at once: its next action is the [listJobs] request. It never
    writes a status itself: the job list afterwards is the answer of that
    poll, or the old list untouched when the poll fails. *)
Theorem cancel_success_polls_at_once env w job data :
  Job.status job = "queued" ∨ Job.status job = "processing" →
  reply env w.2 (Api.CancelJob (Job.job_id job)) = Api.Fulfilled data →
  ProgressCard.EmitCancel (Job.job_id job) ∈ ProgressCard.buttons job
  ∧ (handleCancel (Job.job_id job) env w).1 = Normal ()
  ∧ take 2 (effects_of (handleCancel (Job.job_id job)) env w) =
      [Request (Api.CancelJob (Job.job_id job)); Request (Api.ListJobs 50 0)]
  ∧ jobs (handleCancel (Job.job_id job) env w).2.1 =
      match reply env (w.2 ++ [Request (Api.CancelJob (Job.job_id job))])
                  (Api.ListJobs 50 0) with
      | Api.Fulfilled snapshot => Api.jobs snapshot
      | Api.Rejected _ => jobs w.1
      end.
Proof.
  intros Hst E. split.
  { unfold ProgressCard.buttons, ProgressCard.is_status.
    rewrite !elem_of_app. right. left.
    destruct Hst as [-> | ->]; simpl; apply elem_of_cons; by left. }
  rewrite (handleCancel_fulfilled _ _ _ _ E).
  split; [apply refreshJobs_returns|].
  set (w' := (w.1, w.2 ++ [Request (Api.CancelJob (Job.job_id job))])).
  unfold effects_of. rewrite (handleCancel_fulfilled _ _ _ _ E). fold w'.
  destruct (reply env (w.2 ++ [Request (Api.CancelJob (Job.job_id job))])
                  (Api.ListJobs 50 0)) as [snapshot|err] eqn:El.
  - rewrite (refreshJobs_fulfilled env w' snapshot El). simpl.
    rewrite <- app_assoc, drop_app_length. done.
  - rewrite (refreshJobs_rejected env w' err El). simpl.
    rewrite <- !app_assoc, drop_app_length. done.
Qed.

Lemma cancel_success_polls_at_once_witness :
  let b := Samples.job "B" "processing" (Val 0) Null in
  let b' := Samples.job "B" "cancelled" Null Null in
  jobs (handleCancel "B" (Samples.remote_listing [b']) (Samples.queue [b])).2.1
  = [b'].
Proof.
  intros b b'.
  destruct (cancel_success_polls_at_once (Samples.remote_listing [b'])
              (Samples.queue [b]) b {| Api.jobs := [b'] |})
    as (_ & _ & _ & Hjobs).
  - right. reflexivity.
  - reflexivity.
  - exact Hjobs.
Defined.

(** The retry button, the one source of the [retry] event, is rendered
    exactly when the status is [failed] or [cancelled], and carries the
    id of that job; the listener bound to the event starts with the
    remote retry request. *)
Lemma retry_offered_only_when_failed_or_cancelled :
  (∀ job jobId,
     ProgressCard.EmitRetry jobId ∈ ProgressCard.buttons job ↔
     jobId = Job.job_id job
     ∧ (Job.status job = "failed" ∨ Job.status job = "cancelled"))
  ∧ (∀ env w jobId,
       take 1 (effects_of (handleRetry jobId) env w)
       = [Request (Api.RetryJob jobId)]).
Proof.
  split.
  - intros job jobId. unfold ProgressCard.buttons, ProgressCard.is_status.
    rewrite !elem_of_app.
    destruct (String.eqb_spec (Job.status job) "completed") as [Hc|Hc];
    destruct (String.eqb_spec (Job.status job) "processing") as [Hp|Hp];
    destruct (String.eqb_spec (Job.status job) "queued") as [Hq|Hq];
    destruct (String.eqb_spec (Job.status job) "failed") as [Hf|Hf];
    destruct (String.eqb_spec (Job.status job) "cancelled") as [Hx|Hx];
    simpl; rewrite ?elem_of_cons, ?elem_of_nil; intuition congruence.
  - intros env [q tr] jobId. unfold effects_of.
    unfold handleRetry, try_catch, mbind, M_bind, await. simpl.
    destruct (reply env tr (Api.RetryJob jobId)) as [data|err]; simpl.
    + destruct (refreshJobs env (q, tr ++ [Request (Api.RetryJob jobId)]))
        as [[[]|err] [q' tr']] eqn:Er; simpl.
      * pose proof (f_equal (λ r, r.2.2) Er) as Htr. simpl in Htr.
        destruct (reply env (tr ++ [Request (Api.RetryJob jobId)])
                    (Api.ListJobs 50 0)) as [d|e2] eqn:El.
        -- rewrite (refreshJobs_fulfilled _ (q, _) d El) in Htr.
           simpl in Htr. subst tr'.
           by rewrite <- !app_assoc, drop_app_length.
        -- rewrite (refreshJobs_rejected _ (q, _) e2 El) in Htr.
           simpl in Htr. subst tr'.
           by rewrite <- !app_assoc, drop_app_length.
      * pose proof (refreshJobs_returns env
                      (q, tr ++ [Request (Api.RetryJob jobId)])) as Hret.
        rewrite Er in Hret. discriminate Hret.
    + unfold effect; simpl. by rewrite <- !app_assoc, drop_app_length.
Qed.

End JobQueueFacts.

(** ** The computed values of the progress card *)

Module ProgressCardFacts.
Import JS ProgressCard.

Lemma findIndex_from_none {A} (p : A → bool) (l : list A) : ∀ i,
  (∀ x, x ∈ l → p x = false) → findIndex_from p l i = -1.
Proof.
  induction l as [|x l IH]; intros i Hall; simpl; [done|].
  rewrite (Hall x) by (apply elem_of_cons; by left).
  apply IH. intros y Hy. apply Hall, elem_of_cons. by right.
Qed.

Lemma stepStatus_unknown current target :
  (∀ key, current = Val key → key ∉ fst <$> steps) →
  stepStatus current target = "pending".
Proof.
  intros Hunknown. unfold stepStatus, findIndex.
  rewrite (findIndex_from_none (λ s, strict_eq s.1 current)); [done|].
  intros s Hs. destruct current as [| |key]; simpl; try done.
  destruct (String.eqb_spec s.1 key) as [Heq|]; [|done].
  exfalso. apply (Hunknown key eq_refl). rewrite <- Heq.
  by apply list_elem_of_fmap_2.
Qed.

(** Case analysis on a position of the catalog, given a lookup at it. *)
Ltac catalog_position i H :=
  repeat (destruct i as [|i]; [injection H as <- | simpl in H]);
  try (by destruct i).

(** C6. The catalog is the five keys in pipeline order. For a target
    step at position [i] and a current step at position [j] of it,
    [getStepStatus] answers [completed] when [i < j], [active] when
    [i = j] and [pending] when [i > j]; and when the current step is
    missing or is no key of the catalog it answers [pending] for every
    target. *)
Theorem step_status_follows_catalog_order :
  fst <$> steps
    = ["downloading"; "separating"; "transcribing"; "pitching"; "generating"]
  ∧ (∀ progress job (i j : nat) target current,
       (fst <$> steps) !! i = Some target →
       (fst <$> steps) !! j = Some current →
       currentStep progress job = Val current →
       getStepStatus progress job target =
         if (i <? j)%nat then "completed"
         else if (i =? j)%nat then "active"
         else "pending")
  ∧ (∀ progress job target,
       (∀ key, currentStep progress job = Val key → key ∉ fst <$> steps) →
       getStepStatus progress job target = "pending").
Proof.
  split; [reflexivity|split].
  - intros progress job i j target current Hi Hj Hcur.
    unfold getStepStatus. rewrite Hcur. clear Hcur.
    catalog_position i Hi; catalog_position j Hj; reflexivity.
  - intros progress job target Hunknown.
    by apply stepStatus_unknown.
Qed.

Lemma step_status_follows_catalog_order_witness :
  getStepStatus (Val (Samples.progress_at "transcribing" 10))
                (Samples.job "A" "processing" (Val 0) Null) "separating"
  = "completed"
  ∧ getStepStatus Null (Samples.job "A" "processing" (Val 0) Null) "separating"
    = "pending".
Proof.
  destruct step_status_follows_catalog_order as (_ & Hknown & Hunknown).
  split.
  - apply (Hknown _ _ 1%nat 2%nat "separating" "transcribing");
      reflexivity.
  - apply Hunknown. intros key Hkey. discriminate Hkey.
Defined.




End ProgressCardFacts.

(** ** Poll snapshots and push events on one card *)

Module ChannelsFacts.
Import JS Channels.

Lemma replay_snoc c us u : replay c (us ++ [u]) = update (replay c us) u.
Proof. unfold replay. by rewrite foldl_snoc. Qed.

(** Polls only ever replace the snapshot, pushes only the push ref. *)
Lemma replay_job c us : job (replay c us) = last_snapshot (job c) us.
Proof.
  induction us as [|u us IH] using rev_ind; [done|].
  rewrite replay_snoc. unfold last_snapshot in *. rewrite foldl_snoc.
  rewrite <- IH. by destruct u.
Qed.

Lemma replay_app c us vs : replay c (us ++ vs) = replay (replay c us) vs.
Proof. unfold replay. by rewrite foldl_app. Qed.

(** Nothing that comes from the poll channel touches the push ref. *)
Lemma polls_keep_push_value us : ∀ c,
  forallb from_poll us = true → progress (replay c us) = progress c.
Proof.
  induction us as [|u us IH]; intros c; simpl; [done|].
  intros [Hu Hus]%andb_prop. rewrite (IH _ Hus). by destruct u.
Qed.

(** What an accepted push event leaves in the push ref, field by field. *)
Lemma applySnapshot_fields event stored :
  ∃ p, applySnapshot event stored = Val p
       ∧ Job.message p
         = merge_field (Job.message event) (chain stored Job.message)
       ∧ Job.percentage p
         = merge_field (Job.percentage event) (chain stored Job.percentage)
       ∧ Job.step p = merge_field (Job.step event) (chain stored Job.step)
       ∧ Job.elapsed_seconds p
         = merge_field (Job.elapsed_seconds event)
                       (chain stored Job.elapsed_seconds).
Proof.
  assert (Hnone : ∀ A (x : field A), merge_field x Undefined = x)
    by (by intros A []).
  destruct stored as [| |p]; simpl; eexists; (split; [reflexivity|]);
    simpl; rewrite ?Hnone; done.
Qed.

Lemma replay_pushes_keep_job c us :
  Forall (λ u, ∃ event, u = PushEvent event) us → job (replay c us) = job c.
Proof.
  intros Hpush. rewrite replay_job. unfold last_snapshot.
  revert c. induction Hpush as [|u us [event ->] _ IH]; intros c; [done|].
  simpl. apply IH.
Qed.

(** C1, as stated, fails. A push event at 10 percent arrives, then a
    new poll cycle starts and its snapshot reports 42 percent: no push
    event arrived after the last poll-cycle start, yet the card still
    presents the push values, not the snapshot's. *)
Lemma stale_push_still_presented :
  let a := Samples.job "A" "processing" (Val 1)
             (Val (Samples.progress_at "separating" 40)) in
  let a' := Samples.job "A" "processing" (Val 1)
              (Val (Samples.progress_at "separating" 42)) in
  let us := [PushEvent (Samples.progress_at "transcribing" 10);
             PollStart; PollSnapshot a'] in
  push_since_last_poll_start us = None
  ∧ shown_percentage (presented (mount a')) = 42
  ∧ shown_percentage (presented (replay (mount a) us)) = 10
  ∧ shown_stage (presented (replay (mount a) us)) = Val "transcribing".
Proof. repeat split. Qed.

(** C1, amended. On a card the snapshot is always the latest poll
    snapshot, and nothing from the poll channel touches the push ref,
    however many poll cycles start after a push event: there is no
    freshness test. Each presented value is the one of the most recent
    push event (received while the last known status was not terminal)
    when that event carries it: a percentage that is not undefined, shown
    rounded; a non-empty message or step; a non-zero elapsed time. A
    value the push ref lacks falls back to the latest poll snapshot: the
    percentage to the snapshot's, then 0; the message to the snapshot's,
    then "Initializing..."; the step to the snapshot's; the elapsed time
    to the snapshot's, then the job's own. With no push event at all,
    every presented value is that of the latest poll snapshot. *)
Theorem push_progress_outlives_polls j0 us :
  let c := replay (mount j0) us in
  let polled := last_snapshot j0 us in
  job c = polled
  ∧ (∀ before event after,
       us = before ++ PushEvent event :: after →
       forallb from_poll after = true →
       terminal (Job.status (job (replay (mount j0) before))) = false →
       (∀ q, Job.percentage event = Val q →
             shown_percentage (presented c) = Math_round q)
       ∧ (∀ m, Job.message event = Val m → m ≠ "" →
               shown_message (presented c) = m)
       ∧ (∀ s, Job.step event = Val s → s ≠ "" →
               shown_stage (presented c) = Val s)
       ∧ (∀ e, Job.elapsed_seconds event = Val e → Qeq_bool e 0 = false →
               shown_elapsed (presented c) = Val e))
  ∧ (chain (progress c) Job.percentage = Undefined →
     shown_percentage (presented c)
     = default 0 (round_field (chain (Job.progress polled) Job.percentage)))
  ∧ (ProgressCard.truthy_string (chain (progress c) Job.message) = None →
     shown_message (presented c)
     = default "Initializing..."
         (ProgressCard.truthy_string (chain (Job.progress polled) Job.message)))
  ∧ (truthy (chain (progress c) Job.step) = false →
     shown_stage (presented c) = chain (Job.progress polled) Job.step)
  ∧ (truthy (chain (progress c) Job.elapsed_seconds) = false →
     shown_elapsed (presented c)
     = or_else (chain (Job.progress polled) Job.elapsed_seconds)
               (Job.job_elapsed_seconds polled))
  ∧ (forallb from_poll us = true →
     progress c = Null ∧ presented c = presented (mount polled)).
Proof.
  intros c polled.
  assert (Hjob : job c = polled) by apply replay_job.
  split; [done|]. split; [|split; [|split; [|split; [|split]]]].
  - intros before event after Hus Hafter Hlive.
    assert (Hpush : ∃ p, progress c = Val p
              ∧ Job.message p = merge_field (Job.message event)
                  (chain (progress (replay (mount j0) before)) Job.message)
              ∧ Job.percentage p = merge_field (Job.percentage event)
                  (chain (progress (replay (mount j0) before)) Job.percentage)
              ∧ Job.step p = merge_field (Job.step event)
                  (chain (progress (replay (mount j0) before)) Job.step)
              ∧ Job.elapsed_seconds p = merge_field (Job.elapsed_seconds event)
                  (chain (progress (replay (mount j0) before))
                         Job.elapsed_seconds)).
    { subst c. rewrite Hus, replay_app.
      change (PushEvent event :: after) with ([PushEvent event] ++ after).
      rewrite replay_app, (polls_keep_push_value after _ Hafter).
      simpl. unfold useWebSocket_onmessage. rewrite Hlive.
      apply applySnapshot_fields. }
    destruct Hpush as (p & Hp & Hmsg & Hpct & Hstep & Hsec).
    unfold presented. rewrite Hp. simpl. repeat split.
    + intros q Hq. unfold ProgressCard.progressPercentage. simpl.
      by rewrite Hpct, Hq.
    + intros m Hm Hne. unfold ProgressCard.currentStepMessage. simpl.
      rewrite Hmsg, Hm. simpl. unfold truthy, string_truthy.
      by destruct (String.eqb_spec m "").
    + intros st Hs Hne. unfold ProgressCard.currentStep, or_else. simpl.
      rewrite Hstep, Hs. unfold truthy. simpl. unfold truthy, string_truthy.
      by destruct (String.eqb_spec st "").
    + intros e He Hnz. unfold ProgressCard.seconds, or_else. simpl.
      rewrite Hsec, He. unfold truthy. simpl. unfold truthy, number_truthy.
      rewrite Hnz. simpl. unfold truthy, number_truthy. by rewrite Hnz.
  - intros Hnone. unfold presented. simpl.
    unfold ProgressCard.progressPercentage. rewrite Hnone, Hjob. simpl.
    by destruct (round_field _).
  - intros Hnone. unfold presented. simpl.
    unfold ProgressCard.currentStepMessage. rewrite Hnone, Hjob.
    by destruct (ProgressCard.truthy_string _).
  - intros Hnone. unfold presented. simpl.
    unfold ProgressCard.currentStep, or_else. by rewrite Hnone, Hjob.
  - intros Hnone. unfold presented. simpl.
    unfold ProgressCard.seconds. rewrite Hjob.
    unfold or_else at 2. by rewrite Hnone.
  - intros Hpolls.
    assert (Hprog : progress c = Null)
      by apply (polls_keep_push_value us (mount j0) Hpolls).
    split; [done|].
    assert (Hc : c = mount polled).
    { clearbody c polled. destruct c as [cj cp]. simpl in *. by subst. }
    by rewrite Hc.
Qed.

Lemma push_progress_outlives_polls_witness :
  let a := Samples.job "A" "processing" (Val 1)
             (Val (Samples.progress_at "separating" 40)) in
  let a' := Samples.job "A" "processing" (Val 1)
              (Val (Samples.progress_at "separating" 42)) in
  let us := [PushEvent (Samples.progress_at "transcribing" 10);
             PollStart; PollSnapshot a'] in
  shown_percentage (presented (replay (mount a) us)) = Math_round 10.
Proof.
  intros a a' us.
  pose proof (push_progress_outlives_polls a us) as (_ & Hpush & _).
  destruct (Hpush [] (Samples.progress_at "transcribing" 10)
              [PollStart; PollSnapshot a'] eq_refl eq_refl eq_refl)
    as (Hpct & _).
  apply Hpct. reflexivity.
Defined.

(** C2, as stated, fails. A poll reports job A completed and still
    carrying a queue position and a progress object; the stored record
    is that snapshot, with both, and the card shows its queue message. *)
Lemma terminal_snapshot_stored_as_sent :
  let running := Samples.job "A" "processing" (Val 0)
                   (Val (Samples.progress_at "generating" 90)) in
  let finished := Samples.job "A" "completed" (Val 0)
                    (Val (Samples.progress_at "generating" 100)) in
  JobQueue.jobs
    (JobQueue.refreshJobs (Samples.remote_listing [finished])
                          (Samples.queue [running])).2.1 = [finished]
  ∧ Job.queue_position finished = Val 0
  ∧ Job.progress finished = Val (Samples.progress_at "generating" 100)
  ∧ ProgressCard.queueMessage finished = Val "⚡ Currently processing".
Proof. repeat split. Qed.

(** C2, amended. A poll stores every snapshot as the remote system sent
    it: for a terminal status the record has no queue position and no
    progress only if the snapshot has none. What holds locally is in the
    card: while the status is completed, failed or cancelled, neither the
    progress bar (message, percentage, times) nor the step indicators
    are rendered, whatever the snapshot and the push ref hold, and push
    events arriving afterwards change neither the stored snapshot nor
    that. *)
Theorem terminal_card_renders_no_progress :
  (∀ env w data,
     JobQueue.reply env w.2 (Api.ListJobs 50 0) = Api.Fulfilled data →
     JobQueue.jobs (JobQueue.refreshJobs env w).2.1 = Api.jobs data)
  ∧ (∀ c us formatDuration formatTimeRemaining,
       Job.status (job c) = "completed" ∨ Job.status (job c) = "failed"
         ∨ Job.status (job c) = "cancelled" →
       Forall (λ u, ∃ event, u = PushEvent event) us →
       let c' := replay c us in
       job c' = job c
       ∧ ProgressCard.progressBar (progress c') (job c')
           formatDuration formatTimeRemaining = None
       ∧ ProgressCard.stepIndicators (progress c') (job c') = None).
Proof.
  split.
  - intros env w data E.
    by rewrite (JobQueueFacts.refreshJobs_fulfilled _ _ _ E).
  - intros c us fd ft Hterminal Hpush c'.
    assert (Hjob : job c' = job c) by by apply replay_pushes_keep_job.
    split; [done|].
    unfold ProgressCard.progressBar, ProgressCard.stepIndicators,
      ProgressCard.is_status.
    rewrite Hjob.
    destruct Hterminal as [-> | [-> | ->]]; done.
Qed.

(** The elapsed time of the metadata block is outside those guards: a
    cancelled job whose push ref holds an elapsed time still shows it. *)
Example terminal_card_keeps_time_row formatDuration :
  ProgressCard.metadataTime
    (Val {| Job.message := Undefined; Job.percentage := Undefined;
            Job.step := Undefined; Job.elapsed_seconds := Val 10%Q |})
    (Samples.job "A" "cancelled" Null Null) formatDuration
  = Val (formatDuration 10%Q).
Proof. reflexivity. Qed.

Lemma terminal_card_renders_no_progress_witness :
  let c := mount (Samples.job "A" "cancelled" Null Null) in
  let us := [PushEvent (Samples.progress_at "transcribing" 10)] in
  ProgressCard.progressBar (progress (replay c us)) (job (replay c us))
    (λ _, "0:10") (λ _ _, "1:00") = None.
Proof.
  intros c us.
  destruct (proj2 terminal_card_renders_no_progress c us
              (λ _, "0:10") (λ _ _, "1:00")) as (_ & Hbar & _).
  - right. right. reflexivity.
  - repeat constructor. by eexists.
  - exact Hbar.
Defined.

End ChannelsFacts.

(** ** The filter tabs of the job queue *)

Module JobQueueViewFacts.
Import JS JobQueue JobQueueView.

Lemma count_job_lookup counts job key :
  count_job counts job !! key =
    (λ n, if has_status key job then n + 1 else n) <$> counts !! key.
Proof.
  unfold count_job, has_status.
  destruct (String.eqb_spec (Job.status job) key) as [->|Hne].
  - destruct (counts !! key) as [n|] eqn:E; simpl.
    + by rewrite lookup_insert_eq.
    + by rewrite E.
  - destruct (counts !! Job.status job) as [n|]; simpl.
    + rewrite lookup_insert_ne by done. by destruct (counts !! key).
    + by destruct (counts !! key).
Qed.

Lemma foldl_count_job_lookup jobs : ∀ counts key,
  foldl count_job counts jobs !! key =
    (λ n, n + Z.of_nat (length (List.filter (has_status key) jobs)))
      <$> counts !! key.
Proof.
  induction jobs as [|job jobs IH]; intros counts key; simpl.
  - destruct (counts !! key); simpl; [f_equal; lia|done].
  - rewrite IH, count_job_lookup.
    destruct (counts !! key) as [n|]; simpl; [|done].
    destruct (has_status key job); simpl; f_equal; lia.
Qed.

Lemma jobCounts_status jobs key :
  key ∈ ["queued"; "processing"; "completed"; "failed"; "cancelled"] →
  count (jobCounts jobs) key = occurrences key jobs.
Proof.
  intros Hkey. unfold count, jobCounts. rewrite foldl_count_job_lookup.
  repeat (apply elem_of_cons in Hkey as [->|Hkey]; [reflexivity|]).
  by apply elem_of_nil in Hkey.
Qed.

Lemma jobCounts_all jobs :
  count (jobCounts jobs) "all"
  = Z.of_nat (length jobs) + occurrences "all" jobs.
Proof. unfold count, jobCounts. by rewrite foldl_count_job_lookup. Qed.

Lemma filter_none {A} (p : A → bool) (l : list A) :
  (∀ x, x ∈ l → p x = false) → List.filter p l = [].
Proof.
  induction l as [|x l IH]; intros Hall; simpl; [done|].
  rewrite (Hall x) by (apply elem_of_cons; by left).
  apply IH. intros y Hy. apply Hall, elem_of_cons. by right.
Qed.

Lemma filter_either_length (jobs : list Job.t) a b :
  a ≠ b →
  length (List.filter (λ job, has_status a job || has_status b job) jobs)
  = (length (List.filter (has_status a) jobs)
     + length (List.filter (has_status b) jobs))%nat.
Proof.
  intros Hab. induction jobs as [|job jobs IH]; simpl; [done|].
  unfold has_status in *.
  destruct (String.eqb_spec (Job.status job) a) as [Ha|Ha];
    destruct (String.eqb_spec (Job.status job) b) as [Hb|Hb];
    simpl; rewrite IH; try lia.
  congruence.
Qed.

(** X1. As long as no job carries the status "all", the count on every
    filter tab is the number of cards that selecting the tab shows. *)
Theorem tab_count_is_number_of_cards st f :
  f ∈ statusFilters (jobs st) →
  (∀ job, job ∈ jobs st → Job.status job ≠ "all") →
  filter_count f = Z.of_nat (length (filteredJobs (select f st))).
Proof.
  intros Hf Hall. unfold statusFilters in Hf.
  repeat (apply elem_of_cons in Hf as [->|Hf]);
    [..|by apply elem_of_nil in Hf];
    unfold filteredJobs, select; simpl.
  - rewrite jobCounts_all. unfold occurrences.
    rewrite filter_none; [simpl; lia|].
    intros job Hjob. unfold has_status.
    destruct (String.eqb_spec (Job.status job) "all") as [Heq|]; [|done].
    by destruct (Hall job Hjob).
  - rewrite !jobCounts_status by (rewrite !elem_of_cons; tauto).
    unfold occurrences. rewrite filter_either_length by done. lia.
  - rewrite jobCounts_status by (rewrite !elem_of_cons; tauto). done.
  - rewrite jobCounts_status by (rewrite !elem_of_cons; tauto). done.
  - rewrite jobCounts_status by (rewrite !elem_of_cons; tauto). done.
Qed.

Lemma tab_count_is_number_of_cards_witness :
  let st := {| jobs := [Samples.job "A" "processing" (Val 0) Null;
                        Samples.job "B" "queued" (Val 1) Null;
                        Samples.job "C" "failed" Null Null];
               isLoading := false; selectedFilter := "all" |} in
  let active := {| value := "processing"; label := "Active";
                   filter_count := 2 |} in
  length (filteredJobs (select active st)) = 2%nat.
Proof.
  intros st active.
  apply Nat2Z.inj. symmetry.
  apply (tab_count_is_number_of_cards st active).
  - vm_compute. apply elem_of_cons. right. apply elem_of_cons. by left.
  - intros job Hjob. vm_compute in Hjob.
    repeat (apply elem_of_cons in Hjob as [->|Hjob]; [discriminate|]).
    by apply elem_of_nil in Hjob.
Defined.

(** The condition of X1 is needed: a job whose status reads "all" is
    counted twice on the first tab. *)
Example status_all_is_counted_twice :
  filter_count <$> statusFilters [Samples.job "A" "all" Null Null]
  = [2; 0; 0; 0; 0].
Proof. reflexivity. Qed.

Lemma known_status_split jobs :
  (∀ job, job ∈ jobs →
     Job.status job ∈ ["queued"; "processing"; "completed"; "failed"; "cancelled"]) →
  Z.of_nat (length jobs)
  = occurrences "queued" jobs + occurrences "processing" jobs
    + occurrences "completed" jobs + occurrences "failed" jobs
    + occurrences "cancelled" jobs.
Proof.
  unfold occurrences.
  induction jobs as [|job jobs IH]; intros Hknown; [done|].
  assert (Hrest : ∀ j, j ∈ jobs → Job.status j
            ∈ ["queued"; "processing"; "completed"; "failed"; "cancelled"]).
  { intros j Hj. apply Hknown, elem_of_cons. by right. }
  specialize (IH Hrest).
  assert (Hjob := Hknown job ltac:(apply elem_of_cons; by left)).
  simpl length at 1. rewrite Nat2Z.inj_succ, IH. clear IH Hrest Hknown.
  simpl. unfold has_status.
  repeat (apply elem_of_cons in Hjob as [->|Hjob]; [simpl; lia|]).
  by apply elem_of_nil in Hjob.
Qed.

(** X2. When every job has one of the five statuses, the four tabs
    after "All" split the jobs: their counts add up to the count of
    "All", which is the number of stored jobs. *)
Theorem tab_counts_add_up jobs :
  (∀ job, job ∈ jobs →
     Job.status job ∈ ["queued"; "processing"; "completed"; "failed"; "cancelled"]) →
  filter_count <$> statusFilters jobs !! 0%nat = Some (Z.of_nat (length jobs))
  ∧ foldr Z.add 0 (filter_count <$> drop 1 (statusFilters jobs))
    = Z.of_nat (length jobs).
Proof.
  intros Hknown. unfold statusFilters. simpl.
  rewrite jobCounts_all.
  rewrite !jobCounts_status by (rewrite !elem_of_cons; tauto).
  rewrite (known_status_split jobs Hknown).
  assert (Hnone : occurrences "all" jobs = 0).
  { unfold occurrences. rewrite filter_none; [done|].
    intros job Hjob. specialize (Hknown job Hjob). unfold has_status.
    repeat (apply elem_of_cons in Hknown as [->|Hknown]; [done|]).
    by apply elem_of_nil in Hknown. }
  rewrite Hnone. split; [f_equal; lia|lia].
Qed.

Lemma tab_counts_add_up_witness :
  foldr Z.add 0
    (filter_count <$>
       drop 1 (statusFilters [Samples.job "A" "processing" (Val 0) Null;
                              Samples.job "B" "completed" Null Null]))
  = 2.
Proof.
  apply (tab_counts_add_up [Samples.job "A" "processing" (Val 0) Null;
                            Samples.job "B" "completed" Null Null]).
  intros job Hjob.
  repeat (apply elem_of_cons in Hjob as [->|Hjob];
          [simpl; rewrite !elem_of_cons; tauto|]).
  by apply elem_of_nil in Hjob.
Defined.

End JobQueueViewFacts.

(** ** What every handler of the job queue does and never does *)

Module HandlerFacts.
Import JS JobQueue JobQueueView.

Lemma refreshJobs_cases env w :
  refreshJobs env w =
    match reply env w.2 (Api.ListJobs 50 0) with
    | Api.Fulfilled data =>
        (Normal (),
         ({| jobs := Api.jobs data; isLoading := false;
             selectedFilter := selectedFilter w.1 |},
          w.2 ++ [Request (Api.ListJobs 50 0)]))
    | Api.Rejected e =>
        (Normal (),
         ({| jobs := jobs w.1; isLoading := false;
             selectedFilter := selectedFilter w.1 |},
          w.2 ++ [Request (Api.ListJobs 50 0);
                  ConsoleError "Failed to load jobs:" e]))
    end.
Proof.
  destruct (reply env w.2 (Api.ListJobs 50 0)) as [data|e] eqn:E.
  - by apply JobQueueFacts.refreshJobs_fulfilled.
  - rewrite (JobQueueFacts.refreshJobs_rejected _ _ _ E).
    by rewrite <- app_assoc.
Qed.

Lemma handleCancel_cases jobId env w :
  handleCancel jobId env w =
    match reply env w.2 (Api.CancelJob jobId) with
    | Api.Fulfilled _ =>
        refreshJobs env (w.1, w.2 ++ [Request (Api.CancelJob jobId)])
    | Api.Rejected e =>
        (Normal (),
         (w.1, w.2 ++ [Request (Api.CancelJob jobId);
                       ConsoleError "Failed to cancel job:" e;
                       Alert "Failed to cancel job"]))
    end.
Proof.
  destruct (reply env w.2 (Api.CancelJob jobId)) as [data|e] eqn:E.
  - by apply (JobQueueFacts.handleCancel_fulfilled _ _ _ data).
  - destruct w as [q tr]. simpl in *. JobQueueFacts.run_handler.
    rewrite E. simpl. by rewrite <- !app_assoc.
Qed.

Lemma handleRetry_cases jobId env w :
  handleRetry jobId env w =
    match reply env w.2 (Api.RetryJob jobId) with
    | Api.Fulfilled _ =>
        let r := refreshJobs env (w.1, w.2 ++ [Request (Api.RetryJob jobId)]) in
        (Normal (),
         ({| jobs := jobs r.2.1; isLoading := isLoading r.2.1;
             selectedFilter := "processing" |}, r.2.2))
    | Api.Rejected e =>
        (Normal (),
         (w.1, w.2 ++ [Request (Api.RetryJob jobId);
                       ConsoleError "Failed to retry job:" e;
                       Alert ("Failed to retry job: "
                              +:+ to_string (error_reason e))]))
    end.
Proof.
  destruct w as [q tr]. simpl.
  destruct (reply env tr (Api.RetryJob jobId)) as [data|e] eqn:E.
  - unfold handleRetry, try_catch, mbind, M_bind, await. simpl. rewrite E.
    rewrite (refreshJobs_cases env (q, tr ++ [Request (Api.RetryJob jobId)])).
    simpl.
    by destruct (reply env (tr ++ [Request (Api.RetryJob jobId)])
                   (Api.ListJobs 50 0)).
  - JobQueueFacts.run_handler. rewrite E. simpl. by rewrite <- !app_assoc.
Qed.

Lemma handleDelete_cases jobId env w :
  handleDelete jobId env w =
    let asked := w.2 ++ [Confirm "Are you sure you want to delete this job?"] in
    if confirm_answer env w.2 "Are you sure you want to delete this job?" then
      match reply env asked (Api.DeleteJob jobId) with
      | Api.Fulfilled _ =>
          refreshJobs env (w.1, asked ++ [Request (Api.DeleteJob jobId)])
      | Api.Rejected e =>
          (Normal (),
           (w.1, asked ++ [Request (Api.DeleteJob jobId);
                           ConsoleError "Failed to delete job:" e;
                           Alert "Failed to delete job"]))
      end
    else (Normal (), (w.1, asked)).
Proof.
  destruct w as [q tr]. simpl.
  unfold handleDelete, confirm, mbind, M_bind at 1. simpl.
  destruct (confirm_answer env tr _); simpl; [|done].
  destruct (reply env (tr ++ [Confirm _]) (Api.DeleteJob jobId))
    as [data|e] eqn:E.
  - unfold try_catch, mbind, M_bind, await. simpl. rewrite E.
    rewrite (refreshJobs_cases env (q, _)). simpl.
    by destruct (reply env _ (Api.ListJobs 50 0)).
  - JobQueueFacts.run_handler. rewrite E. simpl. by rewrite <- !app_assoc.
Qed.

(** Every way a handler can go: by event, by the user's answer and by
    the replies of the remote system. *)
Ltac handler_cases emit env w :=
  destruct w as [q tr];
  destruct emit as [jobId|jobId|jobId|jobId]; simpl;
  rewrite ?handleCancel_cases, ?handleRetry_cases, ?handleDelete_cases;
  simpl;
  repeat match goal with
  | |- context [confirm_answer env ?h ?m] =>
      destruct (confirm_answer env h m) eqn:?; simpl
  | |- context [reply env ?h ?c] =>
      destruct (reply env h c) eqn:?; simpl
  | |- context [refreshJobs env ?v] =>
      rewrite (refreshJobs_cases env v); simpl
  end.

Ltac log_tail :=
  unfold effects_of; simpl;
  rewrite ?handleCancel_cases, ?handleRetry_cases, ?handleDelete_cases;
  simpl.

(** X3. No handler of the job queue ever throws: whatever the remote
    system and the user answer, [refreshJobs] and the handler of every
    card event complete normally. *)
Theorem handlers_never_throw env w :
  (refreshJobs env w).1 = Normal ()
  ∧ ∀ emit, (on_emit emit env w).1 = Normal ().
Proof.
  split; [apply JobQueueFacts.refreshJobs_returns|].
  intros emit. handler_cases emit env w; done.
Qed.

Ltac finish_log :=
  rewrite <- ?app_assoc; simpl; rewrite ?drop_app_length; simpl.

(** X4. The handler of a card event sends its command at most once and
    polls at most once, in that order: nothing when the user declines the
    delete, the command alone when the remote system refuses it, the
    command and then one [listJobs(50, 0)] when it accepts. *)
Theorem handler_requests emit cmd env w :
  command emit = Some cmd →
  requests (effects_of (on_emit emit) env w) =
    if goes_ahead emit env w then
      match reply env (log_at_command emit w) cmd with
      | Api.Fulfilled _ => [cmd; Api.ListJobs 50 0]
      | Api.Rejected _ => [cmd]
      end
    else [].
Proof.
  intros Hcmd. unfold effects_of.
  handler_cases emit env w; simpl in Hcmd;
    (injection Hcmd as <- || discriminate Hcmd);
    finish_log; done || congruence.
Qed.

Lemma handler_requests_witness :
  let b := Samples.job "B" "failed" Null Null in
  requests (effects_of (on_emit (ProgressCard.EmitRetry "B"))
              (Samples.remote_refusing Samples.conflict) (Samples.queue [b]))
  = [Api.RetryJob "B"].
Proof.
  intros b.
  apply (handler_requests (ProgressCard.EmitRetry "B") (Api.RetryJob "B")).
  reflexivity.
Defined.

(** X5. No handler edits the job list itself: after the handler of any
    card event the stored list is the answer of the poll the handler
    made, and the old list when it made none or the poll failed. *)
Theorem handler_jobs_come_from_poll emit env w :
  jobs (on_emit emit env w).2.1 =
    match command emit with
    | Some cmd =>
        if goes_ahead emit env w then
          match reply env (log_at_command emit w) cmd with
          | Api.Fulfilled _ =>
              match reply env (log_at_command emit w ++ [Request cmd])
                          (Api.ListJobs 50 0) with
              | Api.Fulfilled snapshot => Api.jobs snapshot
              | Api.Rejected _ => jobs w.1
              end
          | Api.Rejected _ => jobs w.1
          end
        else jobs w.1
    | None => jobs w.1
    end.
Proof. handler_cases emit env w; done || congruence. Qed.

(** X6. The selected filter changes in one case only: an accepted retry
    switches it to "processing" (the "Active" tab), whether or not the
    poll that follows succeeds. A cancel, a delete, and a refused retry
    leave it as it was. *)
Theorem only_accepted_retry_switches_filter emit env w :
  selectedFilter (on_emit emit env w).2.1 =
    match emit with
    | ProgressCard.EmitRetry jobId =>
        match reply env w.2 (Api.RetryJob jobId) with
        | Api.Fulfilled _ => "processing"
        | Api.Rejected _ => selectedFilter w.1
        end
    | _ => selectedFilter w.1
    end.
Proof. handler_cases emit env w; done || congruence. Qed.

(** X7. Declining the confirmation of a delete ends the handler there:
    no request is sent, the component state is as before, and the log
    holds the question only. *)
Theorem declined_delete_does_nothing jobId env w :
  confirm_answer env w.2 "Are you sure you want to delete this job?" = false →
  handleDelete jobId env w =
    (Normal (),
     (w.1, w.2 ++ [Confirm "Are you sure you want to delete this job?"])).
Proof. intros Hno. rewrite handleDelete_cases. simpl. by rewrite Hno. Qed.

Lemma declined_delete_does_nothing_witness :
  let b := Samples.job "B" "completed" Null Null in
  let env := {| reply := λ _ _, Api.Fulfilled {| Api.jobs := [] |};
                confirm_answer := λ _ _, false |} in
  jobs (handleDelete "B" env (Samples.queue [b])).2.1 = [b].
Proof.
  intros b env.
  rewrite (declined_delete_does_nothing "B" env (Samples.queue [b]));
    reflexivity.
Defined.

(** X8. When the command is accepted but the poll after it fails, the
    failure is only written to the console: the handler raises no alert
    and the stored job list stays as it was. After a cancel or a delete
    the cards shown are the same as before, the job among them with its
    old record; after a retry the filter has switched to "processing"
    all the same, so the cards shown are the queued and processing jobs
    of the old list, and the retried job, still recorded as failed or
    cancelled, is not among them. *)
Theorem failed_follow_up_poll_is_silent emit cmd env w e :
  command emit = Some cmd →
  goes_ahead emit env w = true →
  (∃ data, reply env (log_at_command emit w) cmd = Api.Fulfilled data) →
  reply env (log_at_command emit w ++ [Request cmd]) (Api.ListJobs 50 0)
    = Api.Rejected e →
  (on_emit emit env w).2.2 =
    log_at_command emit w
      ++ [Request cmd; Request (Api.ListJobs 50 0);
          ConsoleError "Failed to load jobs:" e]
  ∧ (∀ msg, Alert msg ∉ effects_of (on_emit emit) env w)
  ∧ jobs (on_emit emit env w).2.1 = jobs w.1
  ∧ filteredJobs (on_emit emit env w).2.1 =
      match emit with
      | ProgressCard.EmitRetry _ =>
          List.filter
            (λ job, has_status "queued" job || has_status "processing" job)
            (jobs w.1)
      | _ => filteredJobs w.1
      end.
Proof.
  intros Hcmd Hgo [data Hok] Hpoll.
  assert (Hlog : (on_emit emit env w).2.2 =
            log_at_command emit w
              ++ [Request cmd; Request (Api.ListJobs 50 0);
                  ConsoleError "Failed to load jobs:" e]
          ∧ jobs (on_emit emit env w).2.1 = jobs w.1
          ∧ selectedFilter (on_emit emit env w).2.1 =
              match emit with
              | ProgressCard.EmitRetry _ => "processing"
              | _ => selectedFilter w.1
              end).
  { destruct w as [q tr].
    destruct emit as [jobId|jobId|jobId|jobId]; simpl in *;
      (injection Hcmd as <- || discriminate Hcmd);
      rewrite ?handleCancel_cases, ?handleRetry_cases, ?handleDelete_cases;
      simpl; rewrite ?Hgo, Hok; simpl;
      rewrite refreshJobs_cases; simpl; rewrite Hpoll; simpl;
      by rewrite <- ?app_assoc. }
  destruct Hlog as (Hlog & Hjobs & Hfilter).
  split; [done|]. split; [|split; [done|]].
  - intros msg. unfold effects_of. rewrite Hlog.
    destruct emit; simpl in *; try discriminate Hcmd;
      finish_log; rewrite ?elem_of_cons, elem_of_nil; intuition discriminate.
  - unfold filteredJobs. rewrite Hjobs, Hfilter. by destruct emit.
Qed.

Lemma failed_follow_up_poll_is_silent_witness :
  let b := Samples.job "B" "processing" (Val 0) Null in
  let env := {| reply := λ _ c,
                  match c with
                  | Api.ListJobs _ _ => Api.Rejected Samples.network_error
                  | _ => Api.Fulfilled {| Api.jobs := [] |}
                  end;
                confirm_answer := λ _ _, true |} in
  jobs (on_emit (ProgressCard.EmitCancel "B") env (Samples.queue [b])).2.1
  = [b].
Proof.
  intros b env.
  apply (failed_follow_up_poll_is_silent (ProgressCard.EmitCancel "B")
           (Api.CancelJob "B") env (Samples.queue [b]) Samples.network_error).
  - reflexivity.
  - reflexivity.
  - by eexists.
  - reflexivity.
Defined.

(** X9. [refreshJobs] always asks for the first page only
    ([listJobs(50, 0)], once), always ends with [isLoading] back to
    [false], and never touches the selected filter. *)
Theorem refreshJobs_always env w :
  requests (effects_of refreshJobs env w) = [Api.ListJobs 50 0]
  ∧ isLoading (refreshJobs env w).2.1 = false
  ∧ selectedFilter (refreshJobs env w).2.1 = selectedFilter w.1.
Proof.
  unfold effects_of. rewrite refreshJobs_cases.
  destruct (reply env w.2 (Api.ListJobs 50 0)); simpl;
    rewrite drop_app_length; done.
Qed.

(** X10. After an accepted retry whose poll succeeds, the cards shown
    are exactly the queued and processing jobs of the polled snapshot,
    in the snapshot's order. *)
Theorem accepted_retry_shows_active_jobs jobId env w data snapshot :
  reply env w.2 (Api.RetryJob jobId) = Api.Fulfilled data →
  reply env (w.2 ++ [Request (Api.RetryJob jobId)]) (Api.ListJobs 50 0)
    = Api.Fulfilled snapshot →
  filteredJobs (handleRetry jobId env w).2.1 =
    List.filter (λ job, has_status "queued" job || has_status "processing" job)
                (Api.jobs snapshot).
Proof.
  intros Hok Hpoll. rewrite handleRetry_cases, Hok. simpl.
  rewrite refreshJobs_cases. simpl. by rewrite Hpoll.
Qed.

Lemma accepted_retry_shows_active_jobs_witness :
  let c := Samples.job "C" "failed" Null Null in
  let c' := Samples.job "C" "queued" (Val 3) Null in
  let d := Samples.job "D" "completed" Null Null in
  filteredJobs
    (handleRetry "C" (Samples.remote_listing [d; c']) (Samples.queue [d; c])).2.1
  = [c'].
Proof.
  intros c c' d.
  rewrite (accepted_retry_shows_active_jobs "C"
             (Samples.remote_listing [d; c']) (Samples.queue [d; c])
             {| Api.jobs := [d; c'] |} {| Api.jobs := [d; c'] |});
    reflexivity.
Defined.

End HandlerFacts.

(** ** Strings *)

Module StringFacts.

Lemma append_length (a b : string) :
  String.length (a +:+ b) = (String.length a + String.length b)%nat.
Proof. induction a as [|x a IH]; simpl; [done|]. by rewrite IH. Qed.

Lemma append_cancel_l (a b c : string) : a +:+ b = a +:+ c → b = c.
Proof. induction a as [|x a IH]; simpl; [done|]. intros [= H]. by apply IH. Qed.

Lemma append_cancel_r (a b c : string) : a +:+ c = b +:+ c → a = b.
Proof.
  intros H. assert (Hl : String.length a = String.length b).
  { apply (f_equal String.length) in H. rewrite !append_length in H. lia. }
  revert b H Hl. induction a as [|x a IH]; intros [|y b]; simpl; try done.
  intros [= -> H] [= Hl]. f_equal. by apply IH.
Qed.

End StringFacts.

(** ** More on what a progress card shows *)

Module CardFacts.
Import JS ProgressCard.

Lemma Math_round_mono a b : (a <= b)%Q → Math_round a ≤ Math_round b.
Proof.
  intros Hab. unfold Math_round. apply Qfloor_resp_le.
  apply Qplus_le_compat; [done|apply Qle_refl].
Qed.

Lemma Math_round_near q :
  (inject_Z (Math_round q) <= q + (1 # 2))%Q
  ∧ (q - (1 # 2) < inject_Z (Math_round q))%Q.
Proof.
  unfold Math_round. split; [apply Qfloor_le|].
  pose proof (Qlt_floor (q + (1 # 2))) as Hlt.
  rewrite inject_Z_plus in Hlt.
  apply (Qplus_lt_l _ _ 1%Q).
  eapply Qle_lt_trans; [|exact Hlt].
  ring_simplify. apply Qle_refl.
Qed.

(** X11. The percentage of a card is not clamped, but rounding keeps
    bounds: when the percentage of the push value and that of the
    snapshot, where present, lie between 0 and 100, so does the
    percentage shown (and used as the width of the bar). *)
Theorem shown_percentage_in_range progress job :
  (∀ q, chain progress Job.percentage = Val q → (0 <= q)%Q ∧ (q <= 100)%Q) →
  (∀ q, chain (Job.progress job) Job.percentage = Val q →
        (0 <= q)%Q ∧ (q <= 100)%Q) →
  0 ≤ progressPercentage progress job ≤ 100.
Proof.
  intros Hpush Hpoll. unfold progressPercentage.
  assert (Hround : ∀ q, (0 <= q)%Q ∧ (q <= 100)%Q → 0 ≤ Math_round q ≤ 100).
  { intros q [H0 H100]. split.
    - change 0 with (Math_round 0). by apply Math_round_mono.
    - change 100 with (Math_round 100). by apply Math_round_mono. }
  destruct (chain progress Job.percentage) as [| |q]; simpl.
  - destruct (chain (Job.progress job) Job.percentage) as [| |q]; simpl;
      [lia|lia|]. by apply Hround, Hpoll.
  - lia.
  - by apply Hround, Hpush.
Qed.

Lemma shown_percentage_in_range_witness :
  0 ≤ progressPercentage (Val (Samples.progress_at "pitching" (199 # 2)))
        (Samples.job "A" "processing" (Val 0) Null) ≤ 100.
Proof.
  apply shown_percentage_in_range.
  - intros q [= <-]. split; discriminate.
  - intros q [=].
Defined.

(** Out of range values pass through as they are. *)
Example percentage_is_not_clamped :
  progressPercentage (Val (Samples.progress_at "pitching" 150))
    (Samples.job "A" "processing" (Val 0) Null) = 150.
Proof. reflexivity. Qed.

(** X12. A push percentage is shown rounded to the nearest integer (at
    most one half away), and rounding never turns an increase around:
    when one push event reports no less than another, its card shows no
    less, whatever the snapshots say. *)
Theorem shown_percentage_follows_push event event' job job' q q' :
  Job.percentage event = Val q →
  Job.percentage event' = Val q' →
  (q <= q')%Q →
  progressPercentage (Val event) job ≤ progressPercentage (Val event') job'
  ∧ (inject_Z (progressPercentage (Val event) job) <= q + (1 # 2))%Q
  ∧ (q - (1 # 2) < inject_Z (progressPercentage (Val event) job))%Q.
Proof.
  intros Hq Hq' Hle. unfold progressPercentage. simpl.
  rewrite Hq, Hq'. simpl.
  split; [by apply Math_round_mono|apply Math_round_near].
Qed.

Lemma shown_percentage_follows_push_witness :
  progressPercentage (Val (Samples.progress_at "pitching" (81 # 2)))
    (Samples.job "A" "processing" (Val 0) Null)
  ≤ progressPercentage (Val (Samples.progress_at "pitching" (83 # 2)))
      (Samples.job "A" "processing" (Val 0) Null).
Proof.
  apply (shown_percentage_follows_push _ _ _ _ (81 # 2) (83 # 2));
    [reflexivity|reflexivity|discriminate].
Defined.

Lemma truthy_string_nonempty v s : truthy_string v = Some s → s ≠ "".
Proof.
  destruct v as [| |t]; simpl; try done.
  unfold truthy, string_truthy.
  destruct (String.eqb_spec t ""); simpl; [done|]. by intros [= <-].
Qed.



(** X14. While a job is processing the card lists the five steps in
    catalog order, and when the current step is the one at position [k]
    the rows read: [k] times completed, then one active, then pending.
    With a current step that is missing or unknown all five rows are
    pending, and for any other status there is no list at all. *)
Theorem step_rows_shape progress job :
  (Job.status job = "processing" →
   (∀ (k : nat) key,
      (fst <$> steps) !! k = Some key →
      currentStep progress job = Val key →
      stepIndicators progress job =
        Some (zip (snd <$> steps)
                  (replicate k "completed" ++ ["active"]
                     ++ replicate (4 - k) "pending")))
   ∧ ((∀ key, currentStep progress job = Val key → key ∉ fst <$> steps) →
      stepIndicators progress job =
        Some (zip (snd <$> steps) (replicate 5 "pending"))))
  ∧ (Job.status job ≠ "processing" → stepIndicators progress job = None).
Proof.
  unfold stepIndicators, is_status, getStepStatus. split.
  - intros ->. simpl. split.
    + intros k key Hk ->.
      ProgressCardFacts.catalog_position k Hk; reflexivity.
    + intros Hunknown. simpl.
      by rewrite !(ProgressCardFacts.stepStatus_unknown _ _ Hunknown).
  - intros Hne. by destruct (String.eqb_spec (Job.status job) "processing").
Qed.

Lemma step_rows_shape_witness :
  stepIndicators (Val (Samples.progress_at "transcribing" 10))
                 (Samples.job "A" "processing" (Val 0) Null)
  = Some [("Downloading audio", "completed");
          ("Separating vocals", "completed");
          ("Transcribing lyrics", "active");
          ("Detecting pitch", "pending");
          ("Generating file", "pending")].
Proof.
  apply (proj1 (proj1 (step_rows_shape
                         (Val (Samples.progress_at "transcribing" 10))
                         (Samples.job "A" "processing" (Val 0) Null))
                      eq_refl) 2%nat "transcribing");
    reflexivity.
Defined.

(** X15. A target key that is not in the catalog is classified as
    completed as soon as any catalog step is current (its position reads
    [-1], which is below every real position). *)
Theorem unknown_target_reads_completed progress job target current :
  target ∉ fst <$> steps →
  current ∈ fst <$> steps →
  currentStep progress job = Val current →
  getStepStatus progress job target = "completed".
Proof.
  intros Htarget Hcurrent Hcur. unfold getStepStatus, stepStatus.
  rewrite Hcur.
  assert (Hminus : findIndex (λ s : string * string, String.eqb s.1 target) steps
                   = -1).
  { apply ProgressCardFacts.findIndex_from_none. intros s Hs.
    destruct (String.eqb_spec s.1 target) as [Heq|]; [|done].
    exfalso. apply Htarget. rewrite <- Heq. by apply list_elem_of_fmap_2. }
  rewrite Hminus. clear Hminus Htarget Hcur.
  simpl in Hcurrent.
  repeat (apply elem_of_cons in Hcurrent as [->|Hcurrent]; [reflexivity|]).
  by apply elem_of_nil in Hcurrent.
Qed.

Lemma unknown_target_reads_completed_witness :
  getStepStatus (Val (Samples.progress_at "downloading" 5))
                (Samples.job "A" "processing" (Val 0) Null) "uploading"
  = "completed".
Proof.
  apply (unknown_target_reads_completed _ _ _ "downloading").
  - simpl. rewrite !elem_of_cons, elem_of_nil. intuition discriminate.
  - simpl. rewrite !elem_of_cons. tauto.
  - reflexivity.
Defined.

(** X16. The buttons of a card: delete is always there, cancel and
    retry are never offered together, preview comes only with a
    completed job, and every event carries the id of the card's job. *)
Theorem card_buttons job :
  EmitDelete (Job.job_id job) ∈ buttons job
  ∧ ¬ ((∃ a, EmitCancel a ∈ buttons job) ∧ (∃ b, EmitRetry b ∈ buttons job))
  ∧ (∀ a, EmitPreview a ∈ buttons job → Job.status job = "completed")
  ∧ (∀ e, e ∈ buttons job →
          e ∈ [EmitPreview (Job.job_id job); EmitCancel (Job.job_id job);
               EmitRetry (Job.job_id job); EmitDelete (Job.job_id job)]).
Proof.
  unfold buttons, is_status.
  destruct (String.eqb_spec (Job.status job) "completed") as [Hc|Hc];
  destruct (String.eqb_spec (Job.status job) "processing") as [Hp|Hp];
  destruct (String.eqb_spec (Job.status job) "queued") as [Hq|Hq];
  destruct (String.eqb_spec (Job.status job) "failed") as [Hf|Hf];
  destruct (String.eqb_spec (Job.status job) "cancelled") as [Hx|Hx];
  try congruence; simpl;
  (repeat split;
   [ rewrite !elem_of_cons; tauto
   | intros [[a Ha] [b Hb]]; revert Ha Hb;
     rewrite ?elem_of_cons, ?elem_of_nil; intuition discriminate
   | intros a; rewrite ?elem_of_cons, ?elem_of_nil; intuition discriminate
   | intros e; rewrite ?elem_of_cons, ?elem_of_nil; tauto ]).
Qed.

(** X17. The remaining-time estimate is shown only together with the
    elapsed time and only for a job with a non-zero estimated duration;
    both are computed from the same non-zero elapsed seconds, so neither
    formatter is ever handed a zero or a missing value. *)
Theorem remaining_only_with_elapsed progress job formatDuration
    formatTimeRemaining remaining :
  estimatedRemaining progress job formatTimeRemaining = Val remaining →
  ∃ estimated elapsed,
    Job.estimated_duration_seconds job = Val estimated
    ∧ seconds progress job = Val elapsed
    ∧ Qeq_bool estimated 0 = false
    ∧ Qeq_bool elapsed 0 = false
    ∧ remaining = formatTimeRemaining estimated elapsed
    ∧ elapsedTime progress job formatDuration = Val (formatDuration elapsed).
Proof.
  unfold estimatedRemaining, elapsedTime.
  destruct (Job.estimated_duration_seconds job) as [| |estimated]; try done.
  destruct (seconds progress job) as [| |elapsed]; try done.
  unfold truthy, number_truthy.
  destruct (Qeq_bool estimated 0) eqn:E1; simpl; [done|].
  destruct (Qeq_bool elapsed 0) eqn:E2; simpl; [done|].
  intros [= <-]. by exists estimated, elapsed.
Qed.

Lemma remaining_only_with_elapsed_witness :
  let job :=
    {| Job.job_id := "A"; Job.status := "processing";
       Job.queue_position := Val 0; Job.progress := Null;
       Job.job_elapsed_seconds := Val 30%Q;
       Job.estimated_duration_seconds := Val 600%Q;
       Job.custom_name := Undefined; Job.title := Undefined;
       Job.error_message := Undefined; Job.is_duet := false |} in
  elapsedTime Null job (λ _, "0:30") = Val "0:30".
Proof.
  intros job.
  destruct (remaining_only_with_elapsed Null job (λ _, "0:30")
              (λ _ _, "9:30") "9:30" eq_refl)
    as (estimated & elapsed & _ & _ & _ & _ & _ & Helapsed).
  exact Helapsed.
Defined.

End CardFacts.

(** ** Addresses built by api.js *)

Module ApiUrlsFacts.
Import JS ApiUrls.

(** Strip the shared front of two addresses. *)
Ltac same_front H :=
  unfold downloadUrl, downloadDuetUrl, downloadSolo1Url, downloadSolo2Url,
    downloadZipUrl, exportUrl, downloadResult, downloadZip, exportResult in H;
  repeat apply StringFacts.append_cancel_l in H.

(** X18. All the links in the success block of a card differ from each
    other, whatever the base address and the job id: the download links
    (one, or four for a duet) and the four export links. *)
Theorem card_links_distinct VITE_API_URL job :
  NoDup (downloadLinks VITE_API_URL job ++ exportLinks VITE_API_URL job).
Proof.
  unfold downloadLinks, exportLinks.
  destruct (Job.is_duet job); simpl;
    repeat (apply NoDup_cons; split;
            [rewrite ?elem_of_cons, elem_of_nil;
             intros Hin;
             repeat (destruct Hin as [Hin|Hin];
                     [same_front Hin; vm_compute in Hin; discriminate Hin|]);
             done|]);
    apply NoDup_nil; done.
Qed.

(** Job id and file type together are not told apart: nothing is
    escaped. *)
Example link_parts_run_together :
  downloadResult Undefined "x/download?file_type=a" (Val "b")
  = downloadResult Undefined "x" (Val "a/download?file_type=b").
Proof. reflexivity. Qed.

(** X19. An upload progress event with a positive total and a loaded
    count between 0 and the total is reported as a percentage between 0
    and 100; with a total of 0 or none there is no number to report. *)
Theorem upload_percentage_in_range loaded total :
  0 < total → 0 ≤ loaded ≤ total →
  ∃ pct, uploadPercentage loaded (Val total) = Some pct ∧ 0 ≤ pct ≤ 100.
Proof.
  intros Hpos Hrange. unfold uploadPercentage.
  destruct (Z.eqb_spec total 0) as [->|_]; [lia|].
  eexists. split; [done|].
  assert (Hq : (0 < inject_Z total)%Q).
  { change 0%Q with (inject_Z 0). by rewrite <- Zlt_Qlt. }
  split.
  - transitivity (Math_round 0); [done|].
    apply CardFacts.Math_round_mono.
    apply Qle_shift_div_l; [done|].
    rewrite Qmult_0_l. change 0%Q with (inject_Z 0).
    rewrite <- Zle_Qle. lia.
  - transitivity (Math_round 100); [|done].
    apply CardFacts.Math_round_mono.
    apply Qle_shift_div_r; [done|].
    change 100%Q with (inject_Z 100).
    rewrite <- inject_Z_mult, <- Zle_Qle. lia.
Qed.

Lemma upload_percentage_in_range_witness :
  ∃ pct, uploadPercentage 1 (Val 3) = Some pct ∧ 0 ≤ pct ≤ 100.
Proof. apply upload_percentage_in_range; lia. Defined.

End ApiUrlsFacts.

(** ** The preview modal *)

Module PreviewModalFacts.
Import JS PreviewModal.

Lemma split_lines_cons s : ∃ line lines, split_lines s = line :: lines.
Proof.
  induction s as [|c s (line & lines & IH)]; simpl; [by eexists _, _|].
  destruct (Ascii.eqb c newline); [by eexists _, _|].
  rewrite IH. by eexists _, _.
Qed.

Lemma concat_cons_char c line lines :
  String.concat (String newline "") (String c line :: lines)
  = String c (String.concat (String newline "") (line :: lines)).
Proof. by destruct lines. Qed.

(** X20. Splitting the text into lines loses nothing and breaks at every
    line feed: joining the lines with a line feed gives the text back, no
    line holds a line feed, and there is always at least one line (the
    empty text counts one line). *)
Theorem split_lines_round_trip s :
  String.concat (String newline "") (split_lines s) = s
  ∧ Forall (λ line, newline ∉ String.list_ascii_of_string line) (split_lines s)
  ∧ (1 ≤ length (split_lines s))%nat.
Proof.
  induction s as [|c s (IHjoin & IHfree & IHlen)]; simpl.
  { repeat split; [|lia]. repeat constructor. apply not_elem_of_nil. }
  destruct (split_lines_cons s) as (line & lines & Hs).
  rewrite Hs in *.
  destruct (Ascii.eqb_spec c newline) as [->|Hc].
  - repeat split.
    + change (String.concat (String newline "") ("" :: line :: lines))
        with (String newline (String.concat (String newline "") (line :: lines))).
      by rewrite IHjoin.
    + constructor; [apply not_elem_of_nil|done].
    + simpl. lia.
  - repeat split.
    + rewrite concat_cons_char. by rewrite IHjoin.
    + apply Forall_cons in IHfree as [Hline Hlines].
      constructor; [|done]. simpl. rewrite not_elem_of_cons. by split.
    + simpl in *. lia.
Qed.


End PreviewModalFacts.

(** ** The upload form *)

Module UploadFormFacts.
Import JS UploadForm.

Example youtubeRegex_accepts :
  youtubeRegex_test <$> ["https://www.youtube.com/watch?v=abc";
                         "youtu.be/abc"; "http://youtube.com/x"]
  = [true; true; true].
Proof. reflexivity. Qed.

Example youtubeRegex_rejects :
  youtubeRegex_test <$> [""; "https://youtube.com/"; "https://m.youtube.com/watch";
                         "ftp://youtube.com/x"; "see https://youtu.be/abc"]
  = [false; false; false; false; false].
Proof. reflexivity. Qed.

(** Every way [handleSubmit] can go. *)
Lemma handleSubmit_cases env w :
  handleSubmit env w =
    let v := validateForm w.1 in
    if negb v.1 then (Normal (), (v.2, w.2))
    else
      let st := set_isSubmitting true v.2 in
      let create log uploadFilename :=
        match create_reply env log (jobData st uploadFilename) with
        | inl job =>
            (Normal (),
             (set_isSubmitting false (reset_form st),
              log ++ [CreateJob (jobData st uploadFilename);
                      EmitJobCreated job]))
        | inr e =>
            (Normal (),
             (set_isSubmitting false st,
              log ++ [CreateJob (jobData st uploadFilename);
                      ConsoleError "Failed to create job:" e;
                      Alert ("Failed to create job: "
                             +:+ to_string (JobQueue.error_reason e))]))
        end in
      if String.eqb (sourceType st) "upload" then
        match upload_reply env w.2 (selectedFile st) with
        | inl filename => create (w.2 ++ [Upload (selectedFile st)]) filename
        | inr e =>
            (Normal (),
             (set_isSubmitting false st,
              w.2 ++ [Upload (selectedFile st);
                      ConsoleError "Failed to create job:" e;
                      Alert ("Failed to create job: "
                             +:+ to_string (JobQueue.error_reason e))]))
        end
      else create w.2 Null.
Proof.
  destruct w as [st0 tr]. simpl.
  unfold handleSubmit, mbind, M_bind at 1. simpl.
  destruct (validateForm st0) as [[|] st1] eqn:Ev; simpl; [|done].
  unfold try_finally, try_catch, mbind, mret, M_bind, M_ret, get, modify,
    effect, uploadFile, createJob. simpl.
  destruct (String.eqb (sourceType st1) "upload"); simpl.
  - destruct (upload_reply env tr (selectedFile st1)) as [filename|e]; simpl.
    + destruct (create_reply env _ _) as [job|e]; simpl;
        by rewrite <- !app_assoc.
    + by rewrite <- !app_assoc.
  - destruct (create_reply env tr _) as [job|e]; simpl;
      by rewrite <- !app_assoc.
Qed.

Lemma youtubeRegex_nonempty url :
  youtubeRegex_test url = true → truthy url = true.
Proof. by destruct url. Qed.

Lemma validateForm_true st :
  (validateForm st).1 = true →
  (validateForm st).2 = set_errors ∅ st
  ∧ ((sourceType st = "youtube" ∧ youtubeRegex_test (youtubeUrl st) = true)
     ∨ (sourceType st ≠ "youtube" ∧ present (selectedFile st) = true)).
Proof.
  unfold validateForm. simpl.
  destruct (String.eqb_spec (sourceType st) "youtube") as [Hy|Hy].
  - destruct (truthy (youtubeUrl st)); simpl; [|done].
    destruct (youtubeRegex_test (youtubeUrl st)); simpl; [|done].
    intros _. split; [done|]. by left.
  - destruct (present (selectedFile st)); simpl; [|done].
    intros _. split; [done|]. by right.
Qed.

(** X22. [validateForm] accepts a form exactly when, in YouTube mode,
    the address passes the pattern, and in any other mode a file is
    selected. It always starts from an empty error object: an accepted
    form has no error left, a refused one has exactly one message, not
    blank, under [youtubeUrl] or under [file]; nothing else of the form
    changes. *)
Theorem validateForm_decides st :
  ((validateForm st).1 = true ↔
     (sourceType st = "youtube" ∧ youtubeRegex_test (youtubeUrl st) = true)
     ∨ (sourceType st ≠ "youtube" ∧ present (selectedFile st) = true))
  ∧ ∃ errs,
      (validateForm st).2 = set_errors errs st
      ∧ if (validateForm st).1 then errs = ∅
        else ∃ msg, msg ≠ ""
               ∧ errs = {[ (if String.eqb (sourceType st) "youtube"
                            then "youtubeUrl" else "file") := Val msg ]}.
Proof.
  split.
  - split; [by intros H; apply validateForm_true in H as [_ H]|].
    unfold validateForm. simpl.
    intros [[Hy Hre]|[Hy Hfile]].
    + rewrite Hy. simpl. rewrite (youtubeRegex_nonempty _ Hre), Hre. done.
    + destruct (String.eqb_spec (sourceType st) "youtube"); [done|].
      by rewrite Hfile.
  - unfold validateForm. simpl.
    destruct (String.eqb (sourceType st) "youtube").
    + destruct (truthy (youtubeUrl st)); simpl.
      * destruct (youtubeRegex_test (youtubeUrl st)); simpl;
          [by exists ∅|].
        eexists. split; [done|]. eexists. split; [|by rewrite insert_empty].
        done.
      * eexists. split; [done|]. eexists. split; [|by rewrite insert_empty].
        done.
    + destruct (present (selectedFile st)); simpl; [by exists ∅|].
      eexists. split; [done|]. eexists. split; [|by rewrite insert_empty].
      done.
Qed.

(** X23. A form that does not validate never reaches the network:
    [handleSubmit] returns at once, with nothing sent or emitted, the
    submitting flag untouched and the validation message set. *)
Theorem invalid_form_sends_nothing env w :
  (validateForm w.1).1 = false →
  handleSubmit env w = (Normal (), ((validateForm w.1).2, w.2))
  ∧ isSubmitting (handleSubmit env w).2.1 = isSubmitting w.1.
Proof.
  intros Hinvalid. rewrite handleSubmit_cases. simpl. rewrite Hinvalid. simpl.
  split; [done|].
  destruct (validateForm_decides w.1) as [_ (errs & -> & _)]. done.
Qed.

Lemma invalid_form_sends_nothing_witness :
  let env := {| upload_reply := λ _ _, inl (Val "a.mp3");
                create_reply := λ _ _, inr Samples.network_error |} in
  (handleSubmit env (initial, [])).2.2 = [].
Proof.
  intros env.
  by rewrite (proj1 (invalid_form_sends_nothing env (initial, []) eq_refl)).
Defined.

(** X24. [handleSubmit] never throws and never leaves the form
    submitting: whatever the remote system answers, it completes
    normally, and once the form validated the flag is [false] at the
    end. *)
Theorem submit_always_settles env w :
  (handleSubmit env w).1 = Normal ()
  ∧ ((validateForm w.1).1 = true →
     isSubmitting (handleSubmit env w).2.1 = false).
Proof.
  rewrite handleSubmit_cases. simpl.
  destruct (validateForm w.1) as [[|] st1]; simpl; [|done].
  destruct (String.eqb (sourceType st1) "upload").
  - destruct (upload_reply env w.2 (selectedFile st1)); [|done].
    by destruct (create_reply env _ _).
  - by destruct (create_reply env _ _).
Qed.

(** X25. When the upload fails, no job is created: the log holds the
    upload, the console entry and one alert with the reason, and the
    form keeps its input (the file stays selected, the address stays). *)
Theorem failed_upload_creates_no_job env w e :
  (validateForm w.1).1 = true →
  sourceType w.1 = "upload" →
  upload_reply env w.2 (selectedFile w.1) = inr e →
  handleSubmit env w =
    (Normal (),
     (set_isSubmitting false (set_errors ∅ w.1),
      w.2 ++ [Upload (selectedFile w.1);
              ConsoleError "Failed to create job:" e;
              Alert ("Failed to create job: "
                     +:+ to_string (JobQueue.error_reason e))])).
Proof.
  intros Hvalid Hsrc Hup. rewrite handleSubmit_cases. simpl.
  destruct (validateForm_true _ Hvalid) as [Hst _].
  rewrite Hvalid, Hst. simpl. rewrite Hsrc. simpl. by rewrite Hup.
Qed.

Lemma failed_upload_creates_no_job_witness :
  let st := set_selectedFile (Val {| name := "a.mp3"; size := 1024 |})
              {| sourceType := "upload"; youtubeUrl := "";
                 selectedFile := Null; selectedLanguage := "en";
                 selectedQuality := "balanced"; isDragging := false;
                 isSubmitting := false; errors := ∅; isDuetMode := false;
                 speaker1Name := ""; speaker2Name := "" |} in
  let env := {| upload_reply := λ _ _, inr Samples.network_error;
                create_reply := λ _ _, inr Samples.network_error |} in
  requests (handleSubmit env (st, [])).2.2 = [Upload (selectedFile st)].
Proof.
  intros st env.
  by rewrite (failed_upload_creates_no_job env (st, [])
                Samples.network_error eq_refl eq_refl eq_refl).
Defined.

(** X26. A submit that goes through: after the upload (in upload mode
    only) and the job creation have succeeded, the log holds those
    requests and then the [job-created] event with the job the remote
    system returned; the address, the file and the errors of the form
    are reset, while language, quality, duet mode and singer names stay. *)
Theorem successful_submit_resets_form env w filename job :
  (validateForm w.1).1 = true →
  (if String.eqb (sourceType w.1) "upload"
   then upload_reply env w.2 (selectedFile w.1) = inl filename
   else filename = Null) →
  let sent := if String.eqb (sourceType w.1) "upload"
              then [Upload (selectedFile w.1)] else [] in
  create_reply env (w.2 ++ sent) (jobData w.1 filename) = inl job →
  handleSubmit env w =
    (Normal (),
     (reset_form (set_isSubmitting false w.1),
      w.2 ++ sent ++ [CreateJob (jobData w.1 filename); EmitJobCreated job])).
Proof.
  intros Hvalid Hup sent Hcreate. rewrite handleSubmit_cases. simpl.
  destruct (validateForm_true _ Hvalid) as [Hst _].
  rewrite Hvalid, Hst. simpl. subst sent.
  destruct (String.eqb (sourceType w.1) "upload"); simpl in *.
  - rewrite Hup.
    change (jobData (set_isSubmitting true (set_errors ∅ w.1)) filename)
      with (jobData w.1 filename).
    rewrite Hcreate. by rewrite <- app_assoc.
  - subst filename. rewrite app_nil_r in Hcreate.
    change (jobData (set_isSubmitting true (set_errors ∅ w.1)) Null)
      with (jobData w.1 Null).
    by rewrite Hcreate.
Qed.

Lemma successful_submit_resets_form_witness :
  let st := {| sourceType := "youtube";
               youtubeUrl := "https://youtu.be/abc";
               selectedFile := Null; selectedLanguage := "it";
               selectedQuality := "fast"; isDragging := false;
               isSubmitting := false; errors := ∅; isDuetMode := true;
               speaker1Name := "Ann"; speaker2Name := "" |} in
  let job := Samples.job "J" "queued" (Val 1) Null in
  let env := {| upload_reply := λ _ _, inr Samples.network_error;
                create_reply := λ _ _, inl job |} in
  youtubeUrl (handleSubmit env (st, [])).2.1 = ""
  ∧ selectedLanguage (handleSubmit env (st, [])).2.1 = "it".
Proof.
  intros st job env.
  rewrite (successful_submit_resets_form env (st, []) Null job
             eq_refl eq_refl eq_refl).
  split; reflexivity.
Defined.



End UploadFormFacts.

(** ** More on notifications.js *)

Module NotificationsMore.
Import JS Notifications.

(** X28. A notification is only ever constructed with the flag set and
    the browser's permission granted at that moment, and its options are
    the caller's with the two defaults filled in: every option the
    caller passes is kept as it is (an own [icon] or [badge] wins), and
    the only keys added are [icon] and [badge], both "/icon.png". *)
Theorem shown_notification_options w pg title options n :
  showNotification w pg title options = Normal (Val n) →
  pg = true ∧ permission w = "granted" ∧ n_title n = title
  ∧ (∀ k v, options !! k = Some v → n_options n !! k = Some v)
  ∧ (options !! "icon" = None →
     n_options n !! "icon" = Some (OStr "/icon.png"))
  ∧ (options !! "badge" = None →
     n_options n !! "badge" = Some (OStr "/icon.png"))
  ∧ (∀ k, k ≠ "icon" → k ≠ "badge" → n_options n !! k = options !! k).
Proof.
  unfold showNotification.
  destruct pg; simpl; [|done].
  destruct (has_Notification w); simpl; [|done].
  destruct (String.eqb_spec (permission w) "granted") as [Hg|]; simpl;
    [|done].
  intros [= <-]. simpl. unfold notification_options.
  split; [done|]. split; [done|]. split; [done|].
  split; [|split; [|split]].
  - intros k v Hk. by do 2 apply lookup_union_Some_l.
  - intros Hk. apply lookup_union_Some_l.
    rewrite lookup_union_r by done. by rewrite lookup_singleton_eq.
  - intros Hk. rewrite lookup_union_r.
    + by rewrite lookup_singleton_eq.
    + rewrite lookup_union_r by done. by rewrite lookup_singleton_ne.
  - intros k Hi Hb. rewrite lookup_union_l.
    + rewrite lookup_union_l; [done|]. by rewrite lookup_singleton_ne.
    + by rewrite lookup_singleton_ne.
Qed.

Lemma shown_notification_options_witness :
  let n := {| n_title := "Done";
              n_options := notification_options {[ "icon" := OStr "/mine.png" ]} |} in
  n_options n !! "icon" = Some (OStr "/mine.png").
Proof.
  intros n.
  destruct (shown_notification_options
              {| has_Notification := true; permission := "granted" |}
              true "Done" {[ "icon" := OStr "/mine.png" ]} n eq_refl)
    as (_ & _ & _ & Hkeep & _).
  apply Hkeep. reflexivity.
Defined.

Lemma run_supported_invariant b calls : ∀ pg,
  Forall (λ wc : Browser * Call, has_Notification wc.1 = b) calls →
  (pg = true → b = true) →
  ∀ e, Shown (Throw e) ∉ (run pg calls).1.
Proof.
  induction calls as [|[w c] calls IH]; intros pg Hall Hpg e; simpl.
  { apply not_elem_of_nil. }
  apply Forall_cons in Hall as [Hw Hall]. simpl in Hw.
  apply not_elem_of_cons. split.
  - destruct c as [answer|title options|jobTitle isSuccess]; simpl;
      [done| |];
      unfold notifyJobComplete, showNotification;
      (destruct pg; simpl; [|done]);
      rewrite Hw, (Hpg eq_refl); simpl;
      by destruct (String.eqb (permission w) "granted").
  - apply IH; [done|].
    destruct c as [answer|title options|jobTitle isSuccess]; simpl;
      [|done|done].
    intros Hset.
    destruct (NotificationsFacts.request_flag_cases w answer pg Hset)
      as [Hold|(_ & Hsup & _)]; [by apply Hpg|congruence].
Qed.

(** X29. In a browser whose support for notifications does not change
    during the session, no call to show a notification fails with a
    [ReferenceError] for the missing [Notification] global: the flag
    that guards the read is only set by a request that found the
    global. What the constructor does once it is reached is no part of
    the statement. *)
Theorem stable_support_no_reference_error b calls name :
  Forall (λ wc : Browser * Call, has_Notification wc.1 = b) calls →
  Shown (Throw (ReferenceError name)) ∉ results calls.
Proof.
  intros Hall. apply (run_supported_invariant b); [done|done].
Qed.

Lemma stable_support_no_reference_error_witness :
  Shown (Throw (ReferenceError "Notification"))
    ∉ results
        [ ({| has_Notification := true; permission := "granted" |},
           RequestPermission "granted");
          ({| has_Notification := true; permission := "granted" |},
           NotifyJobComplete "song" true) ].
Proof.
  apply (stable_support_no_reference_error true).
  repeat constructor.
Defined.

(** Without that condition a call can fail so: the flag was set while
    the global existed, and the next call does not find it. *)
Example vanished_support_throws :
  results
    [ ({| has_Notification := true; permission := "granted" |},
       RequestPermission "granted");
      ({| has_Notification := false; permission := "granted" |},
       ShowNotification "Done" ∅) ] !! 1%nat
  = Some (Shown (Throw (ReferenceError "Notification"))).
Proof. reflexivity. Qed.

End NotificationsMore.

(** ** What the job queue renders under its tabs *)

Module PaneFacts.
Import JS JobQueue JobQueueView.

Lemma filter_sublist {A} (p : A → bool) (l : list A) :
  List.filter p l `sublist_of` l.
Proof.
  induction l as [|x l IH]; simpl; [constructor|].
  destruct (p x); by constructor.
Qed.

Lemma filteredJobs_sublist st : filteredJobs st `sublist_of` jobs st.
Proof.
  unfold filteredJobs.
  destruct (String.eqb (selectedFilter st) "all"); [done|].
  destruct (String.eqb (selectedFilter st) "processing");
    apply filter_sublist.
Qed.

(** X30. The cards shown are stored jobs in their stored order, and once
    a job is stored the loading skeleton and the "no jobs yet" block are
    never rendered, also while a poll is running: the queue shows its
    cards, or the "no results" block when the selected filter (which is
    then not "all") matches no job. *)
Theorem stored_jobs_stay_on_screen st :
  jobs st ≠ [] →
  filteredJobs st `sublist_of` jobs st
  ∧ ((pane st = Cards (filteredJobs st) ∧ filteredJobs st ≠ [])
     ∨ (pane st = NoResults (selectedFilter st) ∧ filteredJobs st = []
        ∧ selectedFilter st ≠ "all")).
Proof.
  intros Hjobs. split; [apply filteredJobs_sublist|].
  unfold pane.
  destruct (jobs st) as [|job rest] eqn:Ejobs; [done|]. simpl.
  rewrite andb_false_r. simpl.
  destruct (filteredJobs st) as [|shown more] eqn:Eshown; simpl.
  - right. repeat split. intros Hall.
    unfold filteredJobs in Eshown. rewrite Hall, Ejobs in Eshown.
    discriminate Eshown.
  - left. by split.
Qed.

Lemma stored_jobs_stay_on_screen_witness :
  let a := Samples.job "A" "processing" (Val 0) Null in
  let st := {| jobs := [a]; isLoading := true; selectedFilter := "failed" |} in
  filteredJobs st `sublist_of` jobs st.
Proof.
  intros a st. apply (stored_jobs_stay_on_screen st). discriminate.
Defined.

End PaneFacts.

(** ** Retry is gated by the status *)

Module RetryGateFacts.
Import JS JobQueue CardEvents.

Lemma no_retry_button job jobId :
  Job.status job ≠ "failed" → Job.status job ≠ "cancelled" →
  ProgressCard.EmitRetry jobId ∉ ProgressCard.buttons job.
Proof.
  intros Hf Hc Hin.
  apply (proj1 JobQueueFacts.retry_offered_only_when_failed_or_cancelled)
    in Hin as [_ [?|?]]; done.
Qed.

(** The handlers of the other events never ask for a retry. *)
Lemma other_events_send_no_retry e env w jobId :
  (∀ id, e ≠ ProgressCard.EmitRetry id) →
  Request (Api.RetryJob jobId) ∉ effects_of (on_emit e) env w.
Proof.
  intros Hother. unfold effects_of. destruct w as [q tr].
  destruct e as [id|id|id|id]; simpl;
    [| by destruct (Hother id) | |].
  - rewrite HandlerFacts.handleCancel_cases. simpl.
    destruct (reply env tr (Api.CancelJob id)); simpl;
      rewrite ?HandlerFacts.refreshJobs_cases; simpl;
      try destruct (reply env _ (Api.ListJobs 50 0)); simpl;
      rewrite <- ?app_assoc, drop_app_length; simpl;
      rewrite ?elem_of_cons, elem_of_nil; intuition discriminate.
  - rewrite HandlerFacts.handleDelete_cases. simpl.
    destruct (confirm_answer env tr _); simpl;
      [destruct (reply env _ (Api.DeleteJob id)); simpl;
       rewrite ?HandlerFacts.refreshJobs_cases; simpl;
       try destruct (reply env _ (Api.ListJobs 50 0)); simpl|];
      rewrite <- ?app_assoc, drop_app_length; simpl;
      rewrite ?elem_of_cons, elem_of_nil; intuition discriminate.
  - rewrite drop_all. apply not_elem_of_nil.
Qed.

(** C3. For a job whose last known status is neither failed nor
    cancelled (processing, for one) the card has no retry button, so
    invoking retry on it is turned down locally: nothing happens, and in
    particular no remote call is made; and whatever is invoked on that
    card, no remote retry is ever sent. Retry is let through only for a
    job that is failed or cancelled, and then it starts with the remote
    retry request for that job. *)
Theorem retry_needs_failed_or_cancelled job env w :
  (Job.status job ≠ "failed" → Job.status job ≠ "cancelled" →
   (∀ jobId, ProgressCard.EmitRetry jobId ∉ ProgressCard.buttons job)
   ∧ (∀ jobId, press job (ProgressCard.EmitRetry jobId) env w = (Normal (), w))
   ∧ (∀ e jobId,
        Request (Api.RetryJob jobId) ∉ effects_of (press job e) env w))
  ∧ (∀ e jobId,
       Request (Api.RetryJob jobId) ∈ effects_of (press job e) env w →
       e = ProgressCard.EmitRetry (Job.job_id job)
       ∧ jobId = Job.job_id job
       ∧ (Job.status job = "failed" ∨ Job.status job = "cancelled"))
  ∧ (Job.status job = "failed" ∨ Job.status job = "cancelled" →
     press job (ProgressCard.EmitRetry (Job.job_id job)) env w
     = handleRetry (Job.job_id job) env w
     ∧ take 1 (effects_of (handleRetry (Job.job_id job)) env w)
       = [Request (Api.RetryJob (Job.job_id job))]).
Proof.
  assert (Hsent : ∀ e jobId,
            Request (Api.RetryJob jobId) ∈ effects_of (press job e) env w →
            e = ProgressCard.EmitRetry (Job.job_id job)
            ∧ jobId = Job.job_id job
            ∧ (Job.status job = "failed" ∨ Job.status job = "cancelled")).
  { intros e jobId. unfold press. case_bool_decide as Hbutton.
    - destruct e as [id|id|id|id];
        try (intros Hin;
             by apply other_events_send_no_retry in Hin).
      apply (proj1 JobQueueFacts.retry_offered_only_when_failed_or_cancelled)
        in Hbutton as [-> Hstatus].
      intros Hin.
      pose proof (proj2 JobQueueFacts.retry_offered_only_when_failed_or_cancelled
                    env w (Job.job_id job)) as Hfirst.
      assert (Hid : jobId = Job.job_id job).
      { simpl in Hin. unfold effects_of in *. destruct w as [q tr].
        rewrite HandlerFacts.handleRetry_cases in Hin. simpl in Hin.
        destruct (reply env tr (Api.RetryJob (Job.job_id job))); simpl in Hin;
          rewrite ?HandlerFacts.refreshJobs_cases in Hin; simpl in Hin;
          try destruct (reply env _ (Api.ListJobs 50 0)); simpl in Hin;
          rewrite <- ?app_assoc, drop_app_length in Hin; simpl in Hin;
          rewrite ?elem_of_cons, elem_of_nil in Hin;
          repeat (destruct Hin as [Hin|Hin]); try done;
          by injection Hin. }
      done.
    - unfold effects_of. destruct w as [q tr]. simpl.
      rewrite drop_all. by intros ?%elem_of_nil. }
  split; [|split; [done|]].
  - intros Hf Hc. split; [|split].
    + intros jobId. by apply no_retry_button.
    + intros jobId. unfold press.
      rewrite bool_decide_eq_false_2 by by apply no_retry_button.
      by destruct w.
    + intros e jobId Hin. by apply Hsent in Hin as (_ & _ & [?|?]).
  - intros Hstatus. split.
    + unfold press. rewrite bool_decide_eq_true_2; [done|].
      by apply (proj1 JobQueueFacts.retry_offered_only_when_failed_or_cancelled).
    + apply (proj2 JobQueueFacts.retry_offered_only_when_failed_or_cancelled).
Qed.

Lemma retry_needs_failed_or_cancelled_witness :
  let b := Samples.job "B" "processing" (Val 0) Null in
  let w := Samples.queue [b] in
  press b (ProgressCard.EmitRetry "B") (Samples.remote_listing [b]) w
  = (Normal (), w).
Proof.
  intros b w.
  destruct (proj1 (retry_needs_failed_or_cancelled b
                     (Samples.remote_listing [b]) w))
    as (_ & Hpress & _); [discriminate|discriminate|].
  apply Hpress.
Defined.

End RetryGateFacts.
